(** * scikit-fda: vector-valued bases, the DDG transformer and the
      parametric plot

    A shallow embedding of
    - [skfda/representation/basis/_vector_basis.py] (class [VectorValued]),
    - [skfda/preprocessing/dim_reduction/feature_extraction/_ddg_transformer.py]
      (class [DDGTransformer]),
    - [skfda/exploratory/visualization/_parametric_plot.py]
      (class [ParametricPlot]),
    together with the small part of numpy and scipy these files call.

    Python exceptions are values of [exn]; a call that may raise returns a
    [result].  Arrays carry their shape next to their cells, as a numpy
    array does. *)

From stdpp Require Import base list strings.
From Stdlib Require Import ZArith QArith.

Local Open Scope nat_scope.

(** ** Exceptions and the error monad *)

Inductive exn :=
  | ValueError (args : list string)
  | IndexError
  | AttributeError (name : string)
  | NotFittedError.

Inductive result (A : Type) :=
  | Ok (a : A)
  | Raise (e : exn).
Arguments Ok {A} a.
Arguments Raise {A} e.

Global Instance result_ret : MRet result := λ A, Ok.
Global Instance result_bind : MBind result := λ A B f r,
  match r with Ok a => f a | Raise e => Raise e end.
Global Instance result_fmap : FMap result := λ A B f r,
  match r with Ok a => Ok (f a) | Raise e => Raise e end.

(** [l[i]] on a Python sequence, for a non-negative index. *)
Definition getitem {A} (l : list A) (i : nat) : result A :=
  match l !! i with
  | Some x => Ok x
  | None => Raise IndexError
  end.

(** [any(f(x) for x in l)]: the generator stops at the first true value and
    the body is not run at all on an empty sequence. *)
Fixpoint anyM {A} (f : A → result bool) (l : list A) : result bool :=
  match l with
  | [] => Ok false
  | x :: l' => b ← f x; if (b : bool) then Ok true else anyM f l'
  end.

(** The scalar type of the arrays; only its zero is ever needed, no
    arithmetic is done on the cells by the code modelled here. *)
Class Scalar (A : Type) := zero : A.
Global Hint Mode Scalar ! : typeclass_instances.

(** ** The part of numpy and scipy the sources use *)

Module np.
Section ndarray.
Context {Num : Type} `{!Scalar Num}.

(** A 1-D array is its list of cells; 2-D and 3-D arrays keep their shape,
    which the nested lists alone lose when a dimension is 0.  numpy only
    builds arrays whose cells fill their shape ([wf2], [wf3]); on other
    values of these types the operations below skip the cells that are
    missing. *)
Record ndarray2 := NDArray2 {
  shape2 : nat * nat;
  data2 : list (list Num);
}.

Record ndarray3 := NDArray3 {
  shape3 : nat * nat * nat;
  data3 : list (list (list Num));
}.

(** The cells agree with the shape. *)
Definition wf2 (a : ndarray2) : Prop :=
  length (data2 a) = (shape2 a).1 ∧
  Forall (λ row, length row = (shape2 a).2) (data2 a).

Definition wf3 (a : ndarray3) : Prop :=
  length (data3 a) = (shape3 a).1.1 ∧
  Forall (λ row, length row = (shape3 a).1.2 ∧
                 Forall (λ cell, length cell = (shape3 a).2) row) (data3 a).

Definition lookup2 (a : ndarray2) (r c : nat) : option Num :=
  row ← data2 a !! r; row !! c.

Definition lookup3 (a : ndarray3) (r j c : nat) : option Num :=
  row ← data3 a !! r; cell ← row !! j; cell !! c.

(** [len(a)], and the number of columns [a.shape[1]] of a matrix *)
Definition len2 (a : ndarray2) : nat := (shape2 a).1.
Definition len3 (a : ndarray3) : nat := (shape3 a).1.1.
Definition ncols (a : ndarray2) : nat := (shape2 a).2.

(** [np.zeros((n0, n1, n2))] *)
Definition zeros3 (shape : nat * nat * nat) : ndarray3 :=
  NDArray3 shape
    (replicate shape.1.1 (replicate shape.1.2 (replicate shape.2 zero))).

(** [a[..., c]] for a 3-D array and [c >= 0] *)
Definition last_axis_item (a : ndarray3) (c : nat) : result ndarray2 :=
  if decide ((shape3 a).2 ≤ c) then Raise IndexError
  else Ok (NDArray2 (shape3 a).1
             (map (omap (λ cell : list Num, cell !! c)) (data3 a))).

(** Broadcasting of one axis of a value onto one axis of a target: the
    sizes agree, or the value has size 1 there and is repeated. *)
Definition broadcastable (src tgt : nat) : bool :=
  bool_decide (src = tgt ∨ src = 1).

Definition bidx (src tgt i : nat) : nat :=
  if decide (src = tgt) then i else 0.

(** [matrix[lo:hi, :, i] = v] for [0 <= lo], [0 <= hi], [0 <= i]: the
    slice is clipped to the rows that exist, [i] must be a valid index of
    the last axis, and [v] must broadcast to the shape of the slice. *)
Definition setitem_rows_col (matrix : ndarray3) (lo hi i : nat)
    (v : ndarray2) : result ndarray3 :=
  let '(n0, n1, n2) := shape3 matrix in
  let '(m, p) := shape2 v in
  let lo' := lo `min` n0 in
  let hi' := hi `min` n0 in
  if decide (n2 ≤ i) then Raise IndexError
  else if negb (broadcastable m (hi' - lo') && broadcastable p n1)
  then Raise (ValueError ["could not broadcast input array"])
  else Ok (NDArray3 (n0, n1, n2)
    (imap (λ r row,
       if decide (lo' ≤ r < hi') then
         imap (λ j cell,
           match lookup2 v (bidx m (hi' - lo') (r - lo')) (bidx p n1 j) with
           | Some x => <[i:=x]> cell
           | None => cell
           end) row
       else row) (data3 matrix))).

(** [np.cumsum(l)] of a list of non-negative integers *)
Fixpoint cumsum_from (acc : nat) (l : list nat) : list nat :=
  match l with
  | [] => []
  | x :: l' => (acc + x) :: cumsum_from (acc + x) l'
  end.

Definition cumsum (l : list nat) : list nat := cumsum_from 0 l.

(** [a[:, st:en]] for [0 <= st] and [0 <= en], clipped as Python slices
    are. *)
Definition slice_cols (a : ndarray2) (st en : nat) : ndarray2 :=
  let st' := st `min` ncols a in
  let en' := en `min` ncols a in
  NDArray2 (len2 a, en' - st')
    (map (λ row, take (en' - st') (drop st' row)) (data2 a)).

(** [np.hsplit(a, indices)] of a matrix: the column blocks between
    consecutive division points [0, indices..., a.shape[1]]. *)
Definition hsplit (a : ndarray2) (indices : list nat) : list ndarray2 :=
  let div_points := 0 :: indices ++ [ncols a] in
  zip_with (slice_cols a) div_points (tail div_points).

(** [np.hstack(arrs)] of matrices: they are joined along the columns, which
    needs at least one matrix and the same number of rows in all. *)
Fixpoint hstack_data (n : nat) (arrs : list ndarray2) : list (list Num) :=
  match arrs with
  | [] => replicate n []
  | a :: rest => zip_with app (data2 a) (hstack_data n rest)
  end.

Definition hstack (arrs : list ndarray2) : result ndarray2 :=
  match arrs with
  | [] => Raise (ValueError ["need at least one array to concatenate"])
  | a :: rest =>
      if forallb (λ b, bool_decide (len2 b = len2 a)) rest
      then Ok (NDArray2 (len2 a, sum_list (ncols <$> arrs))
                 (hstack_data (len2 a) arrs))
      else Raise (ValueError
        ["all the input array dimensions except for the concatenation axis must match exactly"])
  end.

(** [np.concatenate(arrs)] of 1-D arrays, which needs at least one array. *)
Definition concatenate1 {A} (arrs : list (list A)) : result (list A) :=
  match arrs with
  | [] => Raise (ValueError ["need at least one array to concatenate"])
  | _ => Ok (concat arrs)
  end.

(** [np.ones(n, dtype=np.bool_)] and [np.zeros(n, dtype=np.bool_)] *)
Definition ones_bool (n : nat) : list bool := replicate n true.
Definition zeros_bool (n : nat) : list bool := replicate n false.

(** [row[mask]] and [a[:, mask]] for a boolean mask, whose length must be
    that of the indexed axis. *)
Definition mask_filter {A} (mask : list bool) (row : list A) : list A :=
  omap (λ bx : bool * A, if bx.1 then Some bx.2 else None) (zip mask row).

Definition select_cols (a : ndarray2) (mask : list bool) : result ndarray2 :=
  if decide (length mask = ncols a)
  then Ok (NDArray2 (len2 a, length (filter (λ b, b = true) mask))
             (map (mask_filter mask) (data2 a)))
  else Raise IndexError.

(** [scipy.linalg.block_diag] applied to matrices: the shapes are summed,
    every matrix is written at the running (row, column) offset of a zero
    matrix; called with no matrix it returns the empty array of shape
    (1, 0). *)
Fixpoint block_diag_rows (arrs : list ndarray2) (before total : nat)
    : list (list Num) :=
  match arrs with
  | [] => []
  | a :: rest =>
      map (λ row, replicate before zero ++ row
                    ++ replicate (total - before - ncols a) zero) (data2 a)
      ++ block_diag_rows rest (before + ncols a) total
  end.

Definition block_diag (arrs : list ndarray2) : ndarray2 :=
  match arrs with
  | [] => NDArray2 (1, 0) [[]]
  | _ =>
      let total := sum_list (ncols <$> arrs) in
      NDArray2 (sum_list (len2 <$> arrs), total) (block_diag_rows arrs 0 total)
  end.

(** [np.concatenate((a, b), axis=-1)] of 3-D arrays, which must agree on
    the first two axes. *)
Definition concatenate_last (a b : ndarray3) : result ndarray3 :=
  if decide ((shape3 a).1 = (shape3 b).1)
  then Ok (NDArray3 ((shape3 a).1, (shape3 a).2 + (shape3 b).2)
             (zip_with (zip_with app) (data3 a) (data3 b)))
  else Raise (ValueError
    ["all the input array dimensions except for the concatenation axis must match exactly"]).

(** Iterating over a 3-D array yields its 2-D slices along the first axis;
    [a[:, c].tolist()] is column [c] of a matrix. *)
Definition iter3 (a : ndarray3) : list ndarray2 :=
  map (NDArray2 ((shape3 a).1.2, (shape3 a).2)) (data3 a).

Definition column (a : ndarray2) (c : nat) : result (list Num) :=
  if decide (ncols a ≤ c) then Raise IndexError
  else Ok (omap (λ row : list Num, row !! c) (data2 a)).

(** What [np.transpose] returns on a Python list of 1-D arrays.  numpy
    first turns the list into an array: an empty list becomes the empty 1-D
    array, [k >= 1] vectors of one length [n] become a (k, n) matrix, and
    vectors of different lengths are refused.  Transposing leaves a 1-D
    array as it is and swaps the axes of a matrix. *)
Inductive ndarray :=
  | Array1 (cells : list Num)
  | Array2 (a : ndarray2).

Fixpoint transpose_rows (n : nat) (rows : list (list Num))
    : list (list Num) :=
  match n with
  | 0 => []
  | S n' => omap head rows :: transpose_rows n' (map tail rows)
  end.

Definition transpose_vectors (vs : list (list Num)) : result ndarray :=
  match vs with
  | [] => Ok (Array1 [])
  | v :: rest =>
      if forallb (λ w, bool_decide (length w = length v)) rest
      then Ok (Array2 (NDArray2 (length v, length vs)
                         (transpose_rows (length v) vs)))
      else Raise (ValueError
        ["setting an array element with a sequence. The requested array has an inhomogeneous shape"])
  end.

End ndarray.
Global Arguments ndarray2 : clear implicits.
Global Arguments ndarray3 : clear implicits.
Global Arguments ndarray : clear implicits.
End np.

(** ** Python ranges and slices *)

(** A [range(start, stop, step)] object; [range] refuses a zero step, so
    [step] is never 0. *)
Record range := Range { start : Z; stop : Z; step : Z }.

(** [i in r] *)
Definition range_contains (r : range) (i : Z) : bool :=
  if (0 <? step r)%Z
  then (start r <=? i)%Z && (i <? stop r)%Z
       && ((i - start r) mod step r =? 0)%Z
  else (stop r <? i)%Z && (i <=? start r)%Z
       && ((start r - i) mod (- step r) =? 0)%Z.

(** How a slice bound is adjusted to a sequence of length [len]: a negative
    bound counts from the end, and the result is clipped. *)
Definition adjust_index (len idx stp : Z) : Z :=
  if (idx <? 0)%Z then
    if (idx + len <? 0)%Z then (if (stp <? 0)%Z then -1 else 0)%Z
    else (idx + len)%Z
  else if (len <=? idx)%Z then (if (stp <? 0)%Z then len - 1 else len)%Z
  else idx.

Definition slice_length (sta sto stp : Z) : Z :=
  if (stp <? 0)%Z
  then (if (sto <? sta)%Z then (sta - sto - 1) / (- stp) + 1 else 0)%Z
  else (if (sta <? sto)%Z then (sto - sta - 1) / stp + 1 else 0)%Z.

(** [l[slice(r.start, r.stop, r.step)]] on a tuple or a 1-D array *)
Definition py_slice {A} (l : list A) (r : range) : list A :=
  let len := Z.of_nat (length l) in
  let sta := adjust_index len (start r) (step r) in
  let sto := adjust_index len (stop r) (step r) in
  omap (λ i : nat, l !! Z.to_nat (sta + Z.of_nat i * step r))
       (seq 0 (Z.to_nat (slice_length sta sto (step r)))).

(** ** The interface of the child bases

    [VectorValued] is built from objects of other subclasses of [Basis]
    ([Monomial], [Fourier], ...), which are not part of the sources at hand.
    What [VectorValued] reads and calls on a child is collected here; the
    methods that can raise return a [result]. *)

Module Basis.
Class ops (Num Point DomainRange B : Type) := {
  dim_domain : B → nat;
  dim_codomain : B → nat;
  domain_range : B → DomainRange;
  n_basis : B → nat;
  (** [b.evaluate(eval_points)] *)
  evaluate : B → list Point → result (np.ndarray3 Num);
  (** [b.gram_matrix()] *)
  gram_matrix : B → np.ndarray2 Num;
  (** [b._derivative_basis_and_coefs(coefs, order=order)] *)
  _derivative_basis_and_coefs :
    B → np.ndarray2 Num → nat → result (B * np.ndarray2 Num);
}.
Global Hint Mode ops - - - ! : typeclass_instances.
End Basis.

(** ** The representation object [FDataBasis]

    Only what [VectorValued._coordinate_nonfull] touches is spelled out: the
    basis, the coefficient matrix and the coordinate names; every other
    attribute of the object is kept together in [attrs]. *)

Module FDataBasis.
Section FDataBasis.
Context {Num BasisT Attrs : Type}.

Record t := Make {
  basis : BasisT;
  coefficients : np.ndarray2 Num;
  coordinate_names : list (option string);
  attrs : Attrs;
}.

(** Modelled from the spec: [FDataBasis.copy] is not among the sources; the
    spec has it return a new representation object sharing all other
    attributes with the original. *)
Definition copy (self : t) (basis : BasisT) (coefficients : np.ndarray2 Num)
    (coordinate_names : list (option string)) : t :=
  {| basis := basis;
     coefficients := coefficients;
     coordinate_names := coordinate_names;
     attrs := attrs self |}.

End FDataBasis.
Global Arguments t : clear implicits.
End FDataBasis.

(** ** [VectorValued] *)

Module VectorValued.
Section VectorValued.
Context {Num : Type} `{!Scalar Num} {Point DomainRange : Type}
  `{!EqDecision DomainRange} {B : Type}
  `{!Basis.ops Num Point DomainRange B} {Attrs : Type}.

(** The attributes of an instance: [_basis_list], and the two attributes the
    base class keeps. *)
Record t := Make {
  _basis_list : list B;
  domain_range : DomainRange;
  n_basis : nat;
}.

(** A basis object held by a representation: a child basis or a
    [VectorValued] one. *)
Inductive basis_object :=
  | Child (b : B)
  | Vector (v : t).

(** Modelled from the spec: [_same_domain] of [skfda._utils] is not among
    the sources; the spec has the constructor check that the children have
    an identical domain range. *)
Definition _same_domain (b1 b2 : B) : bool :=
  bool_decide (Basis.domain_range b1 = Basis.domain_range b2).

(** Modelled from the spec: [Basis.__init__] is not among the sources; the
    spec has it store the domain range and the number of basis functions it
    is given. *)
Definition super_init (basis_list : list B) (domain_range : DomainRange)
    (n_basis : nat) : result t :=
  Ok {| _basis_list := basis_list;
        domain_range := domain_range;
        n_basis := n_basis |}.

Definition all_scalar (basis_list : list B) : bool :=
  forallb (λ b, bool_decide (Basis.dim_codomain b = 1)) basis_list.

Definition any_domain_mismatch (basis_list : list B) : result bool :=
  anyM (λ b,
    b0 ← getitem basis_list 0;
    mret (bool_decide (Basis.dim_domain b ≠ Basis.dim_domain b0)
          || negb (_same_domain b b0))) basis_list.

Definition __init__ (basis_list : list B) : result t :=
  if negb (all_scalar basis_list)
  then Raise (ValueError ["The basis functions must be scalar valued"])
  else
    mismatch ← any_domain_mismatch basis_list;
    if (mismatch : bool)
    then Raise (ValueError
      ["The basis must all have the same domain dimension and range"])
    else
      b0 ← getitem basis_list 0;
      super_init basis_list (Basis.domain_range b0)
        (sum_list (Basis.n_basis <$> basis_list)).

Definition basis_list (self : t) : list B := _basis_list self.

Definition dim_domain (self : t) : result nat :=
  b0 ← getitem (basis_list self) 0; mret (Basis.dim_domain b0).

Definition dim_codomain (self : t) : nat := length (basis_list self).

(** The loop of [_evaluate]: [i] and [ev] run over
    [enumerate(basis_evaluations)]. *)
Fixpoint _evaluate_loop (matrix : np.ndarray3 Num) (n_basis_eval i : nat)
    (basis_evaluations : list (np.ndarray3 Num)) : result (np.ndarray3 Num) :=
  match basis_evaluations with
  | [] => Ok matrix
  | ev :: rest =>
      v ← np.last_axis_item ev 0;
      matrix ← np.setitem_rows_col matrix
                 n_basis_eval (n_basis_eval + np.len3 ev) i v;
      _evaluate_loop matrix (n_basis_eval + np.len3 ev) (S i) rest
  end.

Definition _evaluate (self : t) (eval_points : list Point)
    : result (np.ndarray3 Num) :=
  let matrix :=
    np.zeros3 (n_basis self, length eval_points, dim_codomain self) in
  basis_evaluations ←
    mapM (λ b, Basis.evaluate b eval_points) (basis_list self);
  _evaluate_loop matrix 0 0 basis_evaluations.

Definition _derivative_basis_and_coefs (self : t) (coefs : np.ndarray2 Num)
    (order : nat) : result (t * np.ndarray2 Num) :=
  let n_basis_list := Basis.n_basis <$> basis_list self in
  let indexes := np.cumsum n_basis_list in
  let coefs_per_basis :=
    np.hsplit coefs (take (length indexes - 1) indexes) in
  basis_and_coefs ←
    mapM (λ bc : B * np.ndarray2 Num,
            Basis._derivative_basis_and_coefs bc.1 bc.2 order)
         (zip (basis_list self) coefs_per_basis);
  match basis_and_coefs with
  | [] => Raise (ValueError ["not enough values to unpack (expected 2, got 0)"])
  | _ =>
      let new_basis_list := basis_and_coefs.*1 in
      let new_coefs_list := basis_and_coefs.*2 in
      new_basis ← __init__ new_basis_list;
      new_coefs ← np.hstack new_coefs_list;
      mret (new_basis, new_coefs)
  end.

Definition _gram_matrix (self : t) : np.ndarray2 Num :=
  let gram_matrices := Basis.gram_matrix <$> basis_list self in
  np.block_diag gram_matrices.

(** The [key] of [_coordinate_nonfull] is an [int] or a [range]. *)
Inductive key :=
  | KInt (k : Z)
  | KRange (r : range).

Definition _coordinate_nonfull (self : t)
    (fdatabasis : FDataBasis.t Num basis_object Attrs) (key : key)
    : result (FDataBasis.t Num basis_object Attrs) :=
  let r_key :=
    match key with
    | KInt k => Range k (k + 1) 1
    | KRange r => r
    end in
  (* slice(r_key.start, r_key.stop, r_key.step): the same three integers *)
  let s_key := r_key in
  coef_indexes ←
    np.concatenate1 (imap (λ i b,
      if range_contains r_key (Z.of_nat i)
      then np.ones_bool (Basis.n_basis b)
      else np.zeros_bool (Basis.n_basis b)) (basis_list self));
  let new_basis_list := py_slice (basis_list self) s_key in
  basis ←
    match key with
    | KInt _ => Child <$> getitem new_basis_list 0
    | KRange _ => Vector <$> __init__ new_basis_list
    end;
  coefs ← np.select_cols (FDataBasis.coefficients fdatabasis) coef_indexes;
  let coordinate_names :=
    py_slice (FDataBasis.coordinate_names fdatabasis) s_key in
  mret (FDataBasis.copy fdatabasis basis coefs coordinate_names).

(** *** Vocabulary of the statements about [VectorValued] *)

(** [b] has the domain dimension and the domain range of [b0]. *)
Definition same_domain_as (b0 b : B) : Prop :=
  Basis.dim_domain b = Basis.dim_domain b0 ∧
  Basis.domain_range b = Basis.domain_range b0.

(** The first row of the band of child [i] in an evaluation, which is also
    the first column of its block in a coefficient matrix: the children
    before it take [n_basis] rows each. *)
Definition band_start (basis_list : list B) (i : nat) : nat :=
  sum_list (Basis.n_basis <$> take i basis_list).

(** What the interface promises of [b.evaluate(eval_points)]: an array of
    shape (n_basis, n_points, 1). *)
Definition evaluates_to (eval_points : list Point) (b : B)
    (ev : np.ndarray3 Num) : Prop :=
  Basis.evaluate b eval_points = Ok ev ∧ np.wf3 ev ∧
  np.shape3 ev = (Basis.n_basis b, length eval_points, 1).

(** What the interface promises of [b.gram_matrix()]: a square matrix with
    one row and one column per basis function. *)
Definition has_gram_matrix (b : B) : Prop :=
  np.wf2 (Basis.gram_matrix b) ∧
  np.shape2 (Basis.gram_matrix b) = (Basis.n_basis b, Basis.n_basis b).

(** The contiguous column block of every child in a coefficient matrix, cut
    at the cumulative [n_basis] of the children. *)
Definition coefficient_blocks (basis_list : list B)
    (coefs : np.ndarray2 Num) : list (np.ndarray2 Num) :=
  imap (λ i b,
    np.slice_cols coefs (band_start basis_list i)
      (band_start basis_list i + Basis.n_basis b)) basis_list.

(** What the interface promises of
    [b._derivative_basis_and_coefs(coefs, order)]: the basis of the
    derivative and, for the same samples, one coefficient per function of
    that basis. *)
Definition derives_to (order : nat) (bc bc' : B * np.ndarray2 Num) : Prop :=
  Basis._derivative_basis_and_coefs bc.1 bc.2 order = Ok bc' ∧
  np.wf2 bc'.2 ∧
  np.shape2 bc'.2 = (np.len2 bc.2, Basis.n_basis bc'.1).

End VectorValued.
Global Arguments t : clear implicits.
Global Arguments basis_object : clear implicits.
End VectorValued.

(** ** [DDGTransformer] *)

Module DDGTransformer.

(** The collaborators of the transformer, none of which is among the
    sources: the depth class used by default, the fitting routine of
    [skfda._utils] and the [predict] method of a fitted distribution. *)
Class collaborators (Num X Y Classes Depth Distribution : Type) := {
  (** [X.n_samples], the number of functions in a sample *)
  n_samples : X → nat;
  ModifiedBandDepth : Depth;
  _classifier_fit_distributions :
    X → Y → list Depth → result (Classes * list Distribution);
  predict : Distribution → X → result (list Num);
}.

Section DDGTransformer.
Context {Num X Y Classes Depth Distribution : Type}
  `{!collaborators Num X Y Classes Depth Distribution}.

(** The instance attributes; [classes_] and [distributions_] do not exist
    until [fit] has set them. *)
Record t := Make {
  depth_methods : list Depth;
  classes_ : option Classes;
  distributions_ : option (list Distribution);
}.

(** [depth_method] defaults to [ModifiedBandDepth()] and [depth_methods] to
    [None]. *)
Definition __init__ (depth_method : Depth)
    (depth_methods : option (list Depth)) : t :=
  match depth_methods with
  | None =>
      {| depth_methods := [depth_method];
         classes_ := None; distributions_ := None |}
  | Some depth_methods =>
      {| depth_methods := depth_methods;
         classes_ := None; distributions_ := None |}
  end.


(** [sklearn.utils.validation.check_is_fitted(self)]: the estimator counts
    as fitted when it has an attribute whose name ends with an underscore. *)
Definition sklearn_check_is_fitted (self : t) : result unit :=
  match classes_ self, distributions_ self with
  | None, None => Raise NotFittedError
  | _, _ => Ok ()
  end.

Definition transform (self : t) (x : X) : result (np.ndarray Num) :=
  _ ← sklearn_check_is_fitted self;
  distributions ←
    match distributions_ self with
    | Some ds => Ok ds
    | None => Raise (AttributeError "distributions_")
    end;
  predictions ← mapM (λ distribution, predict distribution x) distributions;
  np.transpose_vectors predictions.

(** What the interface promises of [distribution.predict(X)]: one depth
    value per function of [X]. *)
Definition predicts (x : X) (distribution : Distribution)
    (depths : list Num) : Prop :=
  predict distribution x = Ok depths ∧ length depths = n_samples x.

End DDGTransformer.
Global Arguments t : clear implicits.
End DDGTransformer.

(** ** Functional data objects, as [ParametricPlot] sees them *)

Module FData.
Section FData.
Context {Num Domain : Type} `{!EqDecision Domain}.

(** [data_matrix] is the array of a sample of curves: one
    (points x coordinates) matrix per sample. *)
Record t := Make {
  dim_domain : nat;
  dim_codomain : nat;
  domain : Domain;
  data_matrix : np.ndarray3 Num;
  dataset_name : option string;
  coordinate_names : list (option string);
}.

Definition n_samples (self : t) : nat := np.len3 (data_matrix self).

(** The attributes agree with the data. *)
Definition wf (self : t) : Prop :=
  np.wf3 (data_matrix self) ∧
  (np.shape3 (data_matrix self)).2 = dim_codomain self ∧
  length (coordinate_names self) = dim_codomain self.

(** Modelled from the spec: [FData.concatenate] is not among the sources.
    The spec has [concatenate(other, as_coordinates=True)] stack the
    codomains of two objects into one object whose codomain dimension is
    the sum of theirs, and require an equal sample count and an equal
    domain. *)
Definition concatenate (self other : t) : result t :=
  if negb (bool_decide (n_samples self = n_samples other)
           && bool_decide (dim_domain self = dim_domain other)
           && bool_decide (domain self = domain other))
  then Raise (ValueError ["the objects cannot be concatenated as coordinates"])
  else
    data ← np.concatenate_last (data_matrix self) (data_matrix other);
    mret {| dim_domain := dim_domain self;
            dim_codomain := dim_codomain self + dim_codomain other;
            domain := domain self;
            data_matrix := data;
            dataset_name := dataset_name self;
            coordinate_names :=
              coordinate_names self ++ coordinate_names other |}.

End FData.
Global Arguments t : clear implicits.
End FData.

(** ** [ParametricPlot] *)

Module ParametricPlot.

(** The canvas helpers of [visualization._utils], which are not among the
    sources; [Fig] and [Ax] stand for matplotlib's figures and axes. *)
Class canvas (Fig Ax : Type) := {
  _get_figure_and_axes :
    option (Fig + Ax) → option Fig → option Ax → result (Fig * list Ax);
  _set_figure_layout :
    Fig → list Ax → nat → nat → result (Fig * list Ax);
}.

Section ParametricPlot.
Context {Num Domain : Type} `{!EqDecision Domain} {Fig Ax Kwargs : Type}
  `{!canvas Fig Ax}.

(** The instance attributes; [fd_final] does not exist until [plot] has set
    it. *)
Record t := Make {
  fdata1 : FData.t Num Domain;
  fdata2 : option (FData.t Num Domain);
  fd_final : option (FData.t Num Domain);
}.

Definition __init__ (fdata1 : FData.t Num Domain)
    (fdata2 : option (FData.t Num Domain)) : t :=
  {| fdata1 := fdata1; fdata2 := fdata2; fd_final := None |}.

(** The calls [plot] makes on the figure and on the axes, in order. *)
Inductive draw :=
  | ax_plot (ax : Ax) (xs ys : list Num) (kwargs : Kwargs)
  | fig_suptitle (fig : Fig) (title : string)
  | ax_set_xlabel (ax : Ax) (label : string)
  | ax_set_ylabel (ax : Ax) (label : string).

(** The state [plot] works on: the instance and the calls drawn so far.  A
    raised exception leaves the state as it is at that point. *)
Record world := World {
  self : t;
  drawn : list draw;
}.

Definition M (A : Type) : Type := world → result A * world.

Definition ret {A} (a : A) : M A := λ w, (Ok a, w).

Definition bind {A B} (m : M A) (f : A → M B) : M B := λ w,
  match m w with
  | (Ok a, w') => f a w'
  | (Raise e, w') => (Raise e, w')
  end.

Definition lift {A} (r : result A) : M A := λ w, (r, w).

Definition raise {A} (e : exn) : M A := lift (Raise e).

Definition get_self : M t := λ w, (Ok (self w), w).

Definition set_fd_final (fd : FData.t Num Domain) : M unit := λ w,
  (Ok (),
   {| self := {| fdata1 := fdata1 (self w);
                 fdata2 := fdata2 (self w);
                 fd_final := Some fd |};
      drawn := drawn w |}).

(** Reading [self.fd_final] *)
Definition get_fd_final : M (FData.t Num Domain) :=
  bind get_self (λ s,
    match fd_final s with
    | Some fd => ret fd
    | None => raise (AttributeError "fd_final")
    end).

Definition emit (d : draw) : M unit := λ w,
  (Ok (), {| self := self w; drawn := drawn w ++ [d] |}).

Fixpoint for_each {A} (l : list A) (body : A → M unit) : M unit :=
  match l with
  | [] => ret ()
  | x :: l' => bind (body x) (λ _, for_each l' body)
  end.

Local Instance M_ret : MRet M := @ret.
Local Instance M_bind : MBind M := λ A B f m, bind m f.

Definition configuration_error : exn :=
  ValueError ["Error in data arguments,"; "codomain or domain is not correct."].

Definition plot (chart : option (Fig + Ax)) (fig : option Fig)
    (ax : option Ax) (kwargs : Kwargs) : M Fig :=
  '(fig, axes) ← lift (_get_figure_and_axes chart fig ax);
  s ← get_self;
  (match fdata2 s with
   | Some fdata2 =>
       fd ← lift (FData.concatenate (fdata1 s) fdata2);
       set_fd_final fd
   | None => set_fd_final (fdata1 s)
   end);;
  fd ← get_fd_final;
  '(fig, ax) ←
    (if decide (FData.dim_domain fd = 1 ∧ FData.dim_codomain fd = 2)
     then
       '(fig, axes) ← lift (_set_figure_layout fig axes 2 1);
       ax ← lift (getitem axes 0);
       for_each (np.iter3 (FData.data_matrix fd)) (λ data_matrix,
         xs ← lift (np.column data_matrix 0);
         ys ← lift (np.column data_matrix 1);
         emit (ax_plot ax xs ys kwargs));;
       ret (fig, ax)
     else raise configuration_error);
  (match FData.dataset_name fd with
   | Some name => emit (fig_suptitle fig name)
   | None => ret ()
   end);;
  name0 ← lift (getitem (FData.coordinate_names fd) 0);
  (match name0 with
   | None => emit (ax_set_xlabel ax "Function 1")
   | Some name => emit (ax_set_xlabel ax name)
   end);;
  name1 ← lift (getitem (FData.coordinate_names fd) 1);
  (match name1 with
   | None => emit (ax_set_ylabel ax "Function 2")
   | Some name => emit (ax_set_ylabel ax name)
   end);;
  ret fig.

(** The object a call of [plot] assigns to [fd_final]: the concatenation
    when there is a second object, else the first object. *)
Definition final_data (s : t) : result (FData.t Num Domain) :=
  match fdata2 s with
  | Some fdata2 => FData.concatenate (fdata1 s) fdata2
  | None => Ok (fdata1 s)
  end.

(** The calls that follow the lines: the title when the data has a name,
    and the two axis labels. *)
Definition decorations (fig : Fig) (ax : Ax) (fd : FData.t Num Domain)
    : list draw :=
  match FData.dataset_name fd with
  | Some name => [fig_suptitle fig name]
  | None => []
  end
  ++ [ax_set_xlabel ax
        (default "Function 1" (mjoin (FData.coordinate_names fd !! 0)));
      ax_set_ylabel ax
        (default "Function 2" (mjoin (FData.coordinate_names fd !! 1)))].

(** The line of one sample: its first coordinate against its second. *)
Definition line (ax : Ax) (kwargs : Kwargs) (data_matrix : np.ndarray2 Num)
    : draw :=
  ax_plot ax
    (omap (λ row : list Num, row !! 0) (np.data2 data_matrix))
    (omap (λ row : list Num, row !! 1) (np.data2 data_matrix))
    kwargs.

(** A computation that leaves the instance as it is. *)
Definition keeps_self {A} (m : M A) : Prop :=
  ∀ w, self (m w).2 = self w.

End ParametricPlot.
Global Arguments t : clear implicits.
Global Arguments draw : clear implicits.
Global Arguments world : clear implicits.
End ParametricPlot.

(** ** A sample child class and sample collaborators

    The monomial basis [1, t, t^2, ...] over an interval, with rational
    cells, is the child class the docstring of [VectorValued] uses; it
    serves here to run the definitions above on concrete objects. *)

Module Monomial.

Global Instance Q_scalar : Scalar Q := 0%Q.

Record t := Make {
  domain_range : list (Z * Z);
  n_basis : nat;
}.

Definition evaluate (self : t) (eval_points : list Z)
    : result (np.ndarray3 Q) :=
  Ok (np.NDArray3 (n_basis self, length eval_points, 1)
        (map (λ j, map (λ p : Z, [inject_Z (p ^ Z.of_nat j)]) eval_points)
             (seq 0 (n_basis self)))).

(** The integral of [t^(i+j)] over the interval *)
Definition gram_entry (lo hi : Z) (i j : nat) : Q :=
  let k := Z.of_nat (i + j + 1) in
  Qred (Qmake (hi ^ k - lo ^ k) (Z.to_pos k)).

Definition gram_matrix (self : t) : np.ndarray2 Q :=
  let '(lo, hi) := default (0, 1)%Z (head (domain_range self)) in
  np.NDArray2 (n_basis self, n_basis self)
    (map (λ i, map (gram_entry lo hi i) (seq 0 (n_basis self)))
         (seq 0 (n_basis self))).

(** One derivative of a polynomial given by its coefficients *)
Definition polyder (cs : list Q) : list Q :=
  imap (λ j c, Qred (inject_Z (Z.of_nat (S j)) * c)) (tail cs).

Definition _derivative_basis_and_coefs (self : t) (coefs : np.ndarray2 Q)
    (order : nat) : result (t * np.ndarray2 Q) :=
  if decide (n_basis self ≤ order)
  then Ok ({| domain_range := domain_range self; n_basis := 1 |},
           np.NDArray2 (np.len2 coefs, 1)
             (replicate (np.len2 coefs) [0%Q]))
  else Ok ({| domain_range := domain_range self;
              n_basis := n_basis self - order |},
           np.NDArray2 (np.len2 coefs, n_basis self - order)
             (map (Nat.iter order polyder) (np.data2 coefs))).

Global Instance basis_ops : Basis.ops Q Z (list (Z * Z)) t := {|
  Basis.dim_domain self := length (domain_range self);
  Basis.dim_codomain _ := 1;
  Basis.domain_range := domain_range;
  Basis.n_basis := n_basis;
  Basis.evaluate := evaluate;
  Basis.gram_matrix := gram_matrix;
  Basis._derivative_basis_and_coefs := _derivative_basis_and_coefs;
|}.

End Monomial.

Module Samples.
Import Monomial.

(** The two children of the docstring of [VectorValued] *)
Definition basis_x : Monomial.t := Monomial.Make [(0, 5)%Z] 3.
Definition basis_y : Monomial.t := Monomial.Make [(0, 5)%Z] 2.

Definition children : list Monomial.t := [basis_x; basis_y].

(** What [VectorValued([basis_x, basis_y])] builds *)
Definition basis : VectorValued.t (list (Z * Z)) Monomial.t :=
  VectorValued.Make children [(0, 5)%Z] 5.

Definition points : list Z := [0; 1; 2]%Z.

(** The values of the calls that return, for a list of calls *)
Definition returned {A} (rs : list (result A)) : list A :=
  omap (λ r, match r with Ok a => Some a | Raise _ => None end) rs.

Definition evaluations (bl : list Monomial.t) : list (np.ndarray3 Q) :=
  returned ((λ b, Monomial.evaluate b points) <$> bl).

Definition coefs : np.ndarray2 Q :=
  np.NDArray2 (2, 5)
    [[1; 2; 3; 4; 5]; [6; 7; 8; 9; 10]]%Q.

(** The first derivatives of the children on their coefficient blocks *)
Definition derived : list (Monomial.t * np.ndarray2 Q) :=
  returned ((λ bc : Monomial.t * np.ndarray2 Q,
               Monomial._derivative_basis_and_coefs bc.1 bc.2 1)
            <$> zip children (VectorValued.coefficient_blocks children coefs)).

Definition derived_basis : VectorValued.t (list (Z * Z)) Monomial.t :=
  VectorValued.Make derived.*1 [(0, 5)%Z] 3.

Definition fdatabasis (v : VectorValued.t (list (Z * Z)) Monomial.t)
    : FDataBasis.t Q (VectorValued.basis_object (list (Z * Z)) Monomial.t)
        string :=
  FDataBasis.Make (VectorValued.Vector v) coefs [Some "x"; Some "y"]
    "dataset".

(** Toy collaborators of the transformer: a sample is a list of curves, a
    depth method is a weight, and the depth of a curve is the weighted sum
    of its values. *)
Global Instance ddg_collaborators
    : DDGTransformer.collaborators Z (list (list Z)) (list nat) (list nat)
        Z Z := {|
  DDGTransformer.n_samples x := length x;
  DDGTransformer.ModifiedBandDepth := 1%Z;
  DDGTransformer._classifier_fit_distributions x y depth_methods :=
    Ok (y, depth_methods);
  DDGTransformer.predict distribution x :=
    Ok ((λ curve, distribution * foldr Z.add 0 curve)%Z <$> x);
|}.

Definition curves : list (list Z) := [[1; 2]; [3; 4]; [5; 6]]%Z.
Definition labels : list nat := [0; 1; 0].


Definition fitted_transformer : DDGTransformer.t (list nat) Z Z :=
  DDGTransformer.Make [1; 2]%Z (Some labels) (Some [1; 2]%Z).

(** A toy canvas: figures and axes are numbers, the helpers always return
    figure 0, and the layout gives it the axes asked for. *)
Global Instance toy_canvas : ParametricPlot.canvas nat nat := {|
  ParametricPlot._get_figure_and_axes chart fig ax := Ok (0, []);
  ParametricPlot._set_figure_layout fig axes dim n_axes :=
    Ok (fig, seq 0 n_axes);
|}.

Global Instance Z_scalar : Scalar Z := 0%Z.

(** Two samples of two scalar curves on three points, and their
    concatenation as coordinates. *)
Definition fdata_a : FData.t Z (Z * Z) :=
  FData.Make 1 1 (0, 1)%Z
    (np.NDArray3 (2, 3, 1) [[[1]; [2]; [3]]; [[4]; [5]; [6]]]%Z)
    (Some "growth") [Some "height"].

Definition fdata_b : FData.t Z (Z * Z) :=
  FData.Make 1 1 (0, 1)%Z
    (np.NDArray3 (2, 3, 1) [[[7]; [8]; [9]]; [[10]; [11]; [12]]]%Z)
    None [None].

Definition fdata_ab : FData.t Z (Z * Z) :=
  FData.Make 1 2 (0, 1)%Z
    (np.NDArray3 (2, 3, 2)
       [[[1; 7]; [2; 8]; [3; 9]]; [[4; 10]; [5; 11]; [6; 12]]]%Z)
    (Some "growth") [Some "height"; None].

Definition plot_ab : ParametricPlot.world Z (Z * Z) nat nat string :=
  ParametricPlot.World (ParametricPlot.__init__ fdata_a (Some fdata_b)) [].

Definition plot_a : ParametricPlot.world Z (Z * Z) nat nat string :=
  ParametricPlot.World (ParametricPlot.__init__ fdata_a None) [].

(** A sample of a single scalar curve, which cannot be paired with the
    samples of two curves. *)
Definition fdata_c : FData.t Z (Z * Z) :=
  FData.Make 1 1 (0, 1)%Z
    (np.NDArray3 (1, 3, 1) [[[1]; [2]; [3]]]%Z)
    None [None].

Definition plot_ac : ParametricPlot.world Z (Z * Z) nat nat string :=
  ParametricPlot.World (ParametricPlot.__init__ fdata_a (Some fdata_c)) [].

(** A canvas whose layout hands back the axes it is given: for a new
    figure, none. *)
Global Instance blank_canvas : ParametricPlot.canvas unit unit := {|
  ParametricPlot._get_figure_and_axes chart fig ax := Ok ((), []);
  ParametricPlot._set_figure_layout fig axes dim n_axes := Ok (fig, axes);
|}.

Definition blank_plot_ab : ParametricPlot.world Z (Z * Z) unit unit string :=
  ParametricPlot.World (ParametricPlot.__init__ fdata_a (Some fdata_b)) [].

End Samples.

(** * Properties *)

(** ** The error monad and the list helpers *)

Lemma result_bind_Ok {A B} (f : A → result B) (r : result A) (b : B) :
  r ≫= f = Ok b ↔ ∃ a, r = Ok a ∧ f a = Ok b.
Proof.
  destruct r as [a|e]; simpl; split.
  - intros Hf. by exists a.
  - by intros (a' & [= <-] & Hf).
  - intros [=].
  - by intros (a' & [=] & _).
Qed.

Lemma getitem_Ok {A} (l : list A) (i : nat) (x : A) :
  getitem l i = Ok x ↔ l !! i = Some x.
Proof.
  unfold getitem. destruct (l !! i); split; intros H; by simplify_eq.
Qed.

Lemma anyM_pure {A} (g : A → bool) (l : list A) :
  anyM (λ x, Ok (g x)) l = Ok (existsb g l).
Proof.
  induction l as [|x l IH]; simpl; [done|].
  destruct (g x); [done|]. by rewrite IH.
Qed.

Lemma mapM_result_Ok {A B} (f : A → result B) (l : list A) (k : list B) :
  mapM f l = Ok k ↔ Forall2 (λ x y, f x = Ok y) l k.
Proof.
  revert k. induction l as [|x l IH]; intros k; simpl.
  - split.
    + intros [= <-]. constructor.
    + intros Hk. by inversion Hk.
  - split.
    + intros Hm. apply result_bind_Ok in Hm as (y & Hy & Hm).
      apply result_bind_Ok in Hm as (k' & Hk' & [= <-]).
      constructor; [done|]. by apply IH.
    + intros Hk. inversion Hk as [|? y ? k' Hy Hk']; subst.
      apply IH in Hk'. rewrite Hy. simpl. by rewrite Hk'.
Qed.

(** Sums over prefixes, the offsets of the row bands and column blocks *)

Lemma sum_list_cons (x : nat) (l : list nat) :
  sum_list (x :: l) = x + sum_list l.
Proof. done. Qed.

Lemma sum_list_take_S (l : list nat) (i x : nat) :
  l !! i = Some x → sum_list (take (S i) l) = sum_list (take i l) + x.
Proof.
  intros Hi. rewrite (take_S_r _ _ _ Hi), sum_list_with_app. simpl. lia.
Qed.

Lemma sum_list_take_le (l : list nat) (i : nat) :
  sum_list (take i l) ≤ sum_list l.
Proof.
  rewrite <-(take_drop i l) at 2. rewrite sum_list_with_app. lia.
Qed.

Lemma sum_list_take_mono (l : list nat) (i j : nat) :
  i ≤ j → sum_list (take i l) ≤ sum_list (take j l).
Proof.
  intros Hij. replace (take i l) with (take i (take j l)).
  - apply sum_list_take_le.
  - rewrite take_take. f_equal. lia.
Qed.

(** ** Construction of a [VectorValued] basis *)

Section VectorValued_init.
Context {Num : Type} `{!Scalar Num} {Point DomainRange : Type}
  `{!EqDecision DomainRange} {B : Type}
  `{!Basis.ops Num Point DomainRange B}.

Implicit Types (b : B) (bl : list B) (self : VectorValued.t DomainRange B).

Lemma all_scalar_Forall bl :
  VectorValued.all_scalar bl = true ↔
  Forall (λ b, Basis.dim_codomain b = 1) bl.
Proof.
  unfold VectorValued.all_scalar. rewrite forallb_forall, Forall_forall.
  split; intros Hall b Hb.
  - apply list_elem_of_In, Hall in Hb. by apply bool_decide_eq_true in Hb.
  - apply bool_decide_eq_true, Hall. by apply list_elem_of_In.
Qed.

Lemma any_domain_mismatch_cons b0 bl :
  VectorValued.any_domain_mismatch (b0 :: bl) =
  Ok (existsb (λ b,
        bool_decide (Basis.dim_domain b ≠ Basis.dim_domain b0)
        || negb (VectorValued._same_domain b b0)) (b0 :: bl)).
Proof. unfold VectorValued.any_domain_mismatch. by rewrite <-anyM_pure. Qed.

Lemma no_mismatch_Forall b0 bl :
  existsb (λ b,
    bool_decide (Basis.dim_domain b ≠ Basis.dim_domain b0)
    || negb (VectorValued._same_domain b b0)) bl = false ↔
  Forall (VectorValued.same_domain_as b0) bl.
Proof.
  induction bl as [|b bl IH]; simpl.
  - split; [constructor|done].
  - rewrite orb_false_iff, IH, Forall_cons, orb_false_iff, negb_false_iff.
    unfold VectorValued.same_domain_as, VectorValued._same_domain.
    rewrite bool_decide_eq_false, bool_decide_eq_true.
    split; intros [[H1 H2] H3]; (split; [split|]); try done.
    + by destruct (decide (Basis.dim_domain b = Basis.dim_domain b0)).
    + by intros ?.
Qed.

(** The constructor returns exactly on the non-empty lists of scalar
    children with one domain, and then stores what it was given. *)
Lemma init_Ok_iff bl self :
  VectorValued.__init__ bl = Ok self ↔
  ∃ b0 rest, bl = b0 :: rest ∧
    Forall (λ b, Basis.dim_codomain b = 1) bl ∧
    Forall (VectorValued.same_domain_as b0) bl ∧
    self = VectorValued.Make bl (Basis.domain_range b0)
             (sum_list (Basis.n_basis <$> bl)).
Proof.
  unfold VectorValued.__init__.
  destruct (VectorValued.all_scalar bl) eqn:Hsc; simpl.
  - apply all_scalar_Forall in Hsc.
    destruct bl as [|b0 rest]; [split; [done|by intros (?&?&?&?)]|].
    rewrite any_domain_mismatch_cons.
    destruct (existsb _ (b0 :: rest)) eqn:Hmis; simpl.
    + split; [done|]. intros (b0' & rest' & [= <- <-] & _ & Hdom & _).
      apply no_mismatch_Forall in Hdom. congruence.
    + apply no_mismatch_Forall in Hmis.
      unfold VectorValued.super_init. split.
      * intros [= <-]. by exists b0, rest.
      * by intros (b0' & rest' & [= <- <-] & _ & _ & ->).
  - split; [done|]. intros (b0 & rest & -> & Hall & _).
    apply all_scalar_Forall in Hall. congruence.
Qed.

(** C7: the constructor checks that every child has codomain dimension 1
    and that the children share one domain dimension and one domain range;
    a list that breaks either condition makes the constructor itself raise
    the configuration error ([ValueError]), so no object is built. *)
Theorem init_rejects_invalid_children bl :
  (∃ b, b ∈ bl ∧ Basis.dim_codomain b ≠ 1) ∨
  (∃ b1 b2, b1 ∈ bl ∧ b2 ∈ bl ∧
     (Basis.dim_domain b1 ≠ Basis.dim_domain b2 ∨
      Basis.domain_range b1 ≠ Basis.domain_range b2)) →
  VectorValued.__init__ bl =
    Raise (ValueError
      [if VectorValued.all_scalar bl
       then "The basis must all have the same domain dimension and range"
       else "The basis functions must be scalar valued"]).
Proof.
  intros Hbad. unfold VectorValued.__init__.
  destruct (VectorValued.all_scalar bl) eqn:Hsc; simpl; [|done].
  apply all_scalar_Forall in Hsc.
  destruct Hbad as [(b & Hb & Hcod)|(b1 & b2 & Hb1 & Hb2 & Hne)].
  { rewrite Forall_forall in Hsc. by apply Hsc in Hb. }
  destruct bl as [|b0 rest]; [by apply elem_of_nil in Hb1|].
  rewrite any_domain_mismatch_cons.
  destruct (existsb _ (b0 :: rest)) eqn:Hmis; simpl; [done|].
  apply no_mismatch_Forall in Hmis. rewrite Forall_forall in Hmis.
  destruct (Hmis _ Hb1) as [Hd1 Hr1]. destruct (Hmis _ Hb2) as [Hd2 Hr2].
  destruct Hne as [Hne|Hne]; congruence.
Qed.

(** C8: a [VectorValued] basis built from the children B1..Bk has k >= 1,
    its [n_basis] is the sum of the children's, its [dim_codomain] is k and
    its [domain_range] is that of the first child. *)
Theorem init_attributes bl self :
  VectorValued.__init__ bl = Ok self →
  1 ≤ length bl ∧
  VectorValued.n_basis self = sum_list (Basis.n_basis <$> bl) ∧
  VectorValued.dim_codomain self = length bl ∧
  ∃ b1, bl !! 0 = Some b1 ∧
    VectorValued.domain_range self = Basis.domain_range b1.
Proof.
  intros Hinit. apply init_Ok_iff in Hinit as (b0 & rest & -> & _ & _ & ->).
  simpl. repeat split; [lia|]. by exists b0.
Qed.

(** C9: on the empty list both checks pass vacuously, and the constructor
    then fails on reading the first child: the error is an [IndexError], not
    the [ValueError] of the two documented violations. *)
Theorem init_empty_raises_IndexError :
  VectorValued.all_scalar (B:=B) [] = true ∧
  VectorValued.any_domain_mismatch (B:=B) [] = Ok false ∧
  VectorValued.__init__ (B:=B) [] = Raise IndexError ∧
  ∀ args, VectorValued.__init__ (B:=B) [] ≠ Raise (ValueError args).
Proof. by repeat split. Qed.

End VectorValued_init.

(** Runs on the sample children *)

Lemma init_rejects_invalid_children_witness :
  VectorValued.__init__
    [Samples.basis_x; Monomial.Make [(0, 1)%Z] 2] =
  Raise (ValueError
    ["The basis must all have the same domain dimension and range"]).
Proof.
  refine (init_rejects_invalid_children
            [Samples.basis_x; Monomial.Make [(0, 1)%Z] 2] _).
  right. exists Samples.basis_x, (Monomial.Make [(0, 1)%Z] 2).
  repeat split.
  - apply list_elem_of_here.
  - apply list_elem_of_further, list_elem_of_here.
  - right. simpl. congruence.
Defined.

Lemma init_attributes_witness :
  1 ≤ length Samples.children ∧
  VectorValued.n_basis Samples.basis
    = sum_list (Basis.n_basis <$> Samples.children) ∧
  VectorValued.dim_codomain Samples.basis = length Samples.children ∧
  ∃ b1, Samples.children !! 0 = Some b1 ∧
    VectorValued.domain_range Samples.basis = Basis.domain_range b1.
Proof. apply (init_attributes Samples.children Samples.basis). reflexivity. Defined.

(** ** Arrays *)

Section np_facts.
Context {Num : Type} `{!Scalar Num}.

Implicit Types (a v : np.ndarray2 Num) (M ev : np.ndarray3 Num).

Lemma wf3_lookup_row M r row :
  np.wf3 M → np.data3 M !! r = Some row →
  length row = (np.shape3 M).1.2 ∧
  Forall (λ cell, length cell = (np.shape3 M).2) row.
Proof.
  intros [_ Hrows] Hr. rewrite Forall_lookup in Hrows. by eapply Hrows.
Qed.

Lemma wf3_lookup_cell M r j row cell :
  np.wf3 M → np.data3 M !! r = Some row → row !! j = Some cell →
  length cell = (np.shape3 M).2.
Proof.
  intros Hwf Hr Hj. destruct (wf3_lookup_row M r row Hwf Hr) as [_ Hcells].
  rewrite Forall_lookup in Hcells. by eapply Hcells.
Qed.

Lemma wf2_lookup_row a r row :
  np.wf2 a → np.data2 a !! r = Some row → length row = np.ncols a.
Proof.
  intros [_ Hrows] Hr. rewrite Forall_lookup in Hrows. by eapply Hrows.
Qed.

(** Inside the shape every cell of a well-formed array exists. *)
Lemma lookup3_is_Some M r j c :
  np.wf3 M → r < (np.shape3 M).1.1 → j < (np.shape3 M).1.2 →
  c < (np.shape3 M).2 → is_Some (np.lookup3 M r j c).
Proof.
  intros Hwf Hr Hj Hc. unfold np.lookup3.
  destruct (lookup_lt_is_Some_2 (np.data3 M) r) as [row Hrow].
  { destruct Hwf as [-> _]. done. }
  rewrite Hrow. simpl.
  destruct (wf3_lookup_row M r row Hwf Hrow) as [Hlen _].
  destruct (lookup_lt_is_Some_2 row j) as [cell Hcell]; [lia|].
  rewrite Hcell. simpl. apply lookup_lt_is_Some_2.
  rewrite (wf3_lookup_cell M r j row cell Hwf Hrow Hcell). done.
Qed.

Lemma lookup2_is_Some a r c :
  np.wf2 a → r < np.len2 a → c < np.ncols a → is_Some (np.lookup2 a r c).
Proof.
  intros Hwf Hr Hc. unfold np.lookup2.
  destruct (lookup_lt_is_Some_2 (np.data2 a) r) as [row Hrow].
  { destruct Hwf as [-> _]. done. }
  rewrite Hrow. simpl. apply lookup_lt_is_Some_2.
  by rewrite (wf2_lookup_row a r row Hwf Hrow).
Qed.

Lemma lookup2_ge_cols a r c :
  np.wf2 a → np.ncols a ≤ c → np.lookup2 a r c = None.
Proof.
  intros Hwf Hc. unfold np.lookup2.
  destruct (np.data2 a !! r) as [row|] eqn:Hrow; [|done]. simpl.
  apply lookup_ge_None_2. by rewrite (wf2_lookup_row a r row Hwf Hrow).
Qed.

Lemma zeros3_wf shape : np.wf3 (np.zeros3 (Num:=Num) shape).
Proof.
  destruct shape as [[n0 n1] n2]. split; simpl.
  - by rewrite length_replicate.
  - apply Forall_replicate. split; [by rewrite length_replicate|].
    apply Forall_replicate. by rewrite length_replicate.
Qed.

Lemma zeros3_lookup n0 n1 n2 r j c :
  r < n0 → j < n1 → c < n2 →
  np.lookup3 (np.zeros3 (Num:=Num) (n0, n1, n2)) r j c = Some zero.
Proof.
  intros Hr Hj Hc. unfold np.lookup3, np.zeros3. simpl.
  rewrite lookup_replicate_2 by done. simpl.
  rewrite lookup_replicate_2 by done. simpl.
  by rewrite lookup_replicate_2.
Qed.

(** [ev[..., c]] of a well-formed array keeps the first two axes. *)
Lemma last_axis_item_spec ev c :
  np.wf3 ev → c < (np.shape3 ev).2 →
  ∃ v, np.last_axis_item ev c = Ok v ∧ np.wf2 v ∧
       np.shape2 v = (np.shape3 ev).1 ∧
       ∀ r j, np.lookup2 v r j = np.lookup3 ev r j c.
Proof.
  intros Hwf Hc. unfold np.last_axis_item.
  destruct (decide _) as [?|_]; [lia|].
  eexists. split; [done|].
  assert (Hrow : ∀ r row, np.data3 ev !! r = Some row →
    length (omap (λ cell : list Num, cell !! c) row) = (np.shape3 ev).1.2 ∧
    ∀ j, omap (λ cell : list Num, cell !! c) row !! j
         = row !! j ≫= (λ cell, cell !! c)).
  { intros r row Hr.
    destruct (wf3_lookup_row ev r row Hwf Hr) as [Hlen Hcells].
    clear Hr. revert Hlen. generalize ((np.shape3 ev).1.2).
    induction Hcells as [|cell row Hcell Hcells IH]; intros n Hlen; simpl.
    - split; [done|]. by intros j.
    - destruct (lookup_lt_is_Some_2 cell c) as [x Hx]; [lia|].
      rewrite Hx. simpl in *. destruct n as [|n]; [done|].
      destruct (IH n) as [IH1 IH2]; [lia|]. split; [f_equal; exact IH1|].
      intros [|j]; simpl; [done|]. apply IH2. }
  split; [|split].
  - split; simpl.
    + rewrite length_map. apply Hwf.
    + apply Forall_lookup. intros r row' Hr.
      rewrite list_lookup_fmap in Hr.
      destruct (np.data3 ev !! r) as [row|] eqn:Hrow'; [|done].
      simpl in Hr. injection Hr as <-. by apply (Hrow r).
  - done.
  - intros r j. unfold np.lookup2, np.lookup3. simpl.
    rewrite list_lookup_fmap.
    destruct (np.data3 ev !! r) as [row|] eqn:Hr; [|done]. simpl.
    by apply (Hrow r).
Qed.

(** Writing a block of rows into one coordinate slot: the cells of the
    rows [lo .. lo + m - 1] in slot [i] become those of [v], every other
    cell stays. *)
Lemma setitem_rows_col_spec M lo i v :
  np.wf3 M → np.wf2 v →
  lo + np.len2 v ≤ np.len3 M →
  np.ncols v = (np.shape3 M).1.2 →
  i < (np.shape3 M).2 →
  ∃ M', np.setitem_rows_col M lo (lo + np.len2 v) i v = Ok M' ∧
    np.wf3 M' ∧ np.shape3 M' = np.shape3 M ∧
    ∀ r j c, np.lookup3 M' r j c =
      if decide (lo ≤ r < lo + np.len2 v ∧ c = i)
      then np.lookup2 v (r - lo) j
      else np.lookup3 M r j c.
Proof.
  intros HM Hv Hrows Hcols Hi. unfold np.setitem_rows_col.
  unfold np.len2, np.len3, np.ncols in *.
  destruct (np.shape3 M) as [[n0 n1] n2] eqn:HshM.
  destruct (np.shape2 v) as [m p] eqn:Hshv. simpl in *. subst p.
  destruct (decide (n2 ≤ i)) as [?|_]; [lia|].
  replace (lo `min` n0) with lo by lia.
  replace ((lo + m) `min` n0) with (lo + m) by lia.
  replace (lo + m - lo) with m by lia.
  unfold np.broadcastable, np.bidx.
  rewrite !bool_decide_eq_true_2 by auto. simpl.
  destruct (decide (m = m)) as [_|?]; [|done].
  destruct (decide (n1 = n1)) as [_|?]; [|done].
  eexists. split; [done|].
  assert (Hcell : ∀ r row j cell,
    np.data3 M !! r = Some row → row !! j = Some cell → length cell = n2).
  { intros r row j cell Hr Hj.
    rewrite (wf3_lookup_cell M r j row cell HM Hr Hj). by rewrite HshM. }
  assert (Hrow : ∀ r row, np.data3 M !! r = Some row → length row = n1).
  { intros r row Hr. destruct (wf3_lookup_row M r row HM Hr) as [-> _].
    by rewrite HshM. }
  split; [|split; [done|]].
  - split; simpl.
    + rewrite length_imap. destruct HM as [-> _]. by rewrite HshM.
    + apply Forall_lookup. intros r row' Hr.
      rewrite list_lookup_imap in Hr.
      destruct (np.data3 M !! r) as [row|] eqn:Hrow'; [|done].
      simpl in Hr. injection Hr as <-.
      destruct (decide (lo ≤ r < lo + m)) as [Hband|_].
      * split; [rewrite length_imap; by apply (Hrow r)|].
        apply Forall_lookup. intros j cell' Hj.
        rewrite list_lookup_imap in Hj.
        destruct (row !! j) as [cell|] eqn:Hcell'; [|done].
        simpl in Hj. injection Hj as <-.
        destruct (np.lookup2 v (r - lo) j);
          [rewrite length_insert|]; by apply (Hcell r row j).
      * split; [by apply (Hrow r)|].
        apply Forall_lookup. intros j cell Hj. by apply (Hcell r row j).
  - intros r j c. unfold np.lookup3 at 1. simpl.
    rewrite list_lookup_imap. unfold np.lookup3.
    destruct (np.data3 M !! r) as [row|] eqn:Hr; simpl.
    2:{ destruct (decide _) as [[Hband _]|_]; [|done].
        apply lookup_ge_None_1 in Hr. destruct HM as [HM _].
        rewrite HM, HshM in Hr. simpl in Hr. lia. }
    destruct (decide (lo ≤ r < lo + m)) as [Hband|Hband].
    2:{ destruct (decide _) as [[? _]|_]; [lia|done]. }
    rewrite list_lookup_imap.
    destruct (row !! j) as [cell|] eqn:Hj; simpl.
    2:{ destruct (decide _) as [_|_]; [|done].
        apply lookup_ge_None_1 in Hj. rewrite (Hrow r row Hr) in Hj.
        symmetry. apply lookup2_ge_cols; [done|].
        unfold np.ncols. rewrite Hshv. simpl. lia. }
    assert (Hjn : j < n1).
    { apply lookup_lt_Some in Hj. by rewrite (Hrow r row Hr) in Hj. }
    destruct (lookup2_is_Some v (r - lo) j Hv) as [x Hx].
    { unfold np.len2. rewrite Hshv. simpl. lia. }
    { unfold np.ncols. rewrite Hshv. simpl. lia. }
    rewrite Hx.
    destruct (decide (c = i)) as [->|Hc].
    + rewrite decide_True by done.
      apply list_lookup_insert_eq. by rewrite (Hcell r row j cell Hr Hj).
    + rewrite decide_False by tauto. by apply list_lookup_insert_ne.
Qed.

(** A row of the block-diagonal matrix: zeros, then the row of the block,
    then zeros. *)
Lemma padded_row_lookup (row : list Num) before total c :
  before + length row ≤ total →
  (replicate before zero ++ row
     ++ replicate (total - before - length row) zero) !! c =
  if decide (c < total)
  then if decide (before ≤ c < before + length row)
       then row !! (c - before) else Some zero
  else None.
Proof.
  intros Hle. destruct (decide (c < total)) as [Hc|Hc].
  - destruct (decide (c < before)) as [Hb|Hb].
    + rewrite lookup_app_l by (rewrite length_replicate; lia).
      rewrite lookup_replicate_2 by done.
      by rewrite decide_False by lia.
    + rewrite lookup_app_r by (rewrite length_replicate; lia).
      rewrite length_replicate.
      destruct (decide (c < before + length row)) as [Hr|Hr].
      * rewrite lookup_app_l by lia. by rewrite decide_True by lia.
      * rewrite lookup_app_r by lia.
        rewrite lookup_replicate_2 by lia.
        by rewrite decide_False by lia.
  - apply lookup_ge_None_2. rewrite !length_app, !length_replicate. lia.
Qed.

(** The rows of the blocks, one block after the other, each shifted to its
    own columns. *)
Lemma block_diag_rows_lookup (arrs : list (np.ndarray2 Num)) :
  ∀ before total, Forall np.wf2 arrs →
  before + sum_list (np.ncols <$> arrs) ≤ total →
  ∀ i a, arrs !! i = Some a → ∀ r c, r < np.len2 a →
    (row ← np.block_diag_rows arrs before total
             !! (sum_list (np.len2 <$> take i arrs) + r); row !! c) =
    if decide (c < total)
    then if decide (before + sum_list (np.ncols <$> take i arrs) ≤ c
                    < before + sum_list (np.ncols <$> take i arrs)
                      + np.ncols a)
         then np.lookup2 a r (c - (before + sum_list (np.ncols <$> take i arrs)))
         else Some zero
    else None.
Proof.
  induction arrs as [|a0 rest IH]; intros before total Hwf Hle i a Hi r c Hr.
  { by rewrite lookup_nil in Hi. }
  apply Forall_cons in Hwf as [Hwf0 Hwf].
  rewrite fmap_cons, sum_list_cons in Hle.
  cbn [np.block_diag_rows].
  assert (Hlen0 : length (np.data2 a0) = np.len2 a0) by apply Hwf0.
  destruct i as [|i].
  - injection Hi as <-. rewrite take_0, !fmap_nil. cbn [sum_list_with].
    rewrite Nat.add_0_l, Nat.add_0_r.
    rewrite lookup_app_l by (rewrite length_map; lia).
    rewrite list_lookup_fmap.
    destruct (lookup_lt_is_Some_2 (np.data2 a0) r) as [row Hrow]; [lia|].
    rewrite Hrow. cbn [fmap option_fmap option_map mbind option_bind].
    pose proof (wf2_lookup_row a0 r row Hwf0 Hrow) as Hlen.
    rewrite <-Hlen. rewrite padded_row_lookup by lia.
    unfold np.lookup2. by rewrite Hrow.
  - rewrite lookup_cons in Hi.
    rewrite firstn_cons, !fmap_cons, !sum_list_cons.
    rewrite lookup_app_r by (rewrite length_map; lia).
    rewrite length_map, Hlen0.
    replace (np.len2 a0 + sum_list (np.len2 <$> take i rest) + r - np.len2 a0)
      with (sum_list (np.len2 <$> take i rest) + r) by lia.
    rewrite (IH (before + np.ncols a0) total Hwf ltac:(lia) i a Hi r c Hr).
    rewrite !Nat.add_assoc. done.
Qed.

Lemma block_diag_rows_wf (arrs : list (np.ndarray2 Num)) :
  ∀ before total, Forall np.wf2 arrs →
  before + sum_list (np.ncols <$> arrs) ≤ total →
  length (np.block_diag_rows arrs before total)
    = sum_list (np.len2 <$> arrs) ∧
  Forall (λ row, length row = total) (np.block_diag_rows arrs before total).
Proof.
  induction arrs as [|a0 rest IH]; intros before total Hwf Hle.
  { split; [done|constructor]. }
  apply Forall_cons in Hwf as [Hwf0 Hwf].
  rewrite fmap_cons, sum_list_cons in Hle.
  destruct (IH (before + np.ncols a0) total Hwf) as [IH1 IH2]; [lia|].
  cbn [np.block_diag_rows]. split.
  - rewrite length_app, length_map, IH1, fmap_cons, sum_list_cons.
    destruct Hwf0 as [-> _]. done.
  - apply Forall_app. split; [|done].
    apply Forall_fmap, Forall_lookup. intros r row Hrow. simpl.
    pose proof (wf2_lookup_row a0 r row Hwf0 Hrow).
    rewrite !length_app, !length_replicate. lia.
Qed.

(** [block_diag]: block [i] sits on the diagonal at the offsets given by
    the blocks before it, and the cells of its rows outside its columns are
    zero. *)
Lemma block_diag_spec (arrs : list (np.ndarray2 Num)) :
  arrs ≠ [] → Forall np.wf2 arrs →
  np.wf2 (np.block_diag arrs) ∧
  np.shape2 (np.block_diag arrs)
    = (sum_list (np.len2 <$> arrs), sum_list (np.ncols <$> arrs)) ∧
  ∀ i j ai aj, arrs !! i = Some ai → arrs !! j = Some aj →
    ∀ r c, r < np.len2 ai → c < np.ncols aj →
      np.lookup2 (np.block_diag arrs)
        (sum_list (np.len2 <$> take i arrs) + r)
        (sum_list (np.ncols <$> take j arrs) + c) =
      if decide (i = j) then np.lookup2 ai r c else Some zero.
Proof.
  intros Hne Hwf. destruct arrs as [|a0 rest]; [done|]. clear Hne.
  set (arrs := a0 :: rest) in *.
  destruct (block_diag_rows_wf arrs 0 (sum_list (np.ncols <$> arrs)) Hwf)
    as [Hlen Hrows]; [lia|].
  split; [by split|]. split; [done|].
  intros i j ai aj Hi Hj r c Hr Hc.
  unfold np.lookup2 at 1. unfold np.block_diag. cbn [np.data2]. fold arrs.
  rewrite (block_diag_rows_lookup arrs 0 _ Hwf (Nat.le_refl _) i ai Hi r _ Hr).
  rewrite !Nat.add_0_l.
  assert (Hcols : ∀ k a, arrs !! k = Some a →
    sum_list (np.ncols <$> take (S k) arrs)
      = sum_list (np.ncols <$> take k arrs) + np.ncols a).
  { intros k a Hk. rewrite !fmap_take. apply sum_list_take_S.
    by rewrite list_lookup_fmap, Hk. }
  pose proof (Hcols i ai Hi) as HSi. pose proof (Hcols j aj Hj) as HSj.
  pose proof (sum_list_take_le (np.ncols <$> arrs) (S j)) as Htot.
  rewrite <-fmap_take in Htot.
  rewrite decide_True by lia.
  destruct (decide (i = j)) as [->|Hij].
  - assert (ai = aj) as -> by congruence.
    rewrite decide_True by lia. f_equal. lia.
  - rewrite decide_False; [done|].
    destruct (decide (i < j)) as [Hlt|Hge].
    + pose proof (sum_list_take_mono (np.ncols <$> arrs) (S i) j) as Hm.
      rewrite <-!fmap_take in Hm. lia.
    + pose proof (sum_list_take_mono (np.ncols <$> arrs) (S j) i) as Hm.
      rewrite <-!fmap_take in Hm. lia.
Qed.

(** *** Splitting and joining along the columns *)

Lemma cumsum_from_lookup (ns : list nat) : ∀ acc i n,
  ns !! i = Some n →
  np.cumsum_from acc ns !! i = Some (acc + sum_list (take i ns) + n).
Proof.
  induction ns as [|n0 ns IH]; intros acc [|i] n Hi; try done.
  - injection Hi as <-. cbn. f_equal. lia.
  - rewrite lookup_cons in Hi. cbn [np.cumsum_from].
    rewrite lookup_cons, firstn_cons, (IH _ _ _ Hi), sum_list_cons.
    f_equal. lia.
Qed.

Lemma cumsum_from_length (ns : list nat) acc :
  length (np.cumsum_from acc ns) = length ns.
Proof. revert acc. induction ns as [|n ns IH]; intros acc; cbn; auto. Qed.

(** With the last division point at the end of the matrix, the points
    after the leading 0 are the cumulative sums themselves. *)
Lemma cumsum_division_points (ns : list nat) :
  ns ≠ [] →
  take (length (np.cumsum ns) - 1) (np.cumsum ns) ++ [sum_list ns]
    = np.cumsum ns.
Proof.
  intros Hne. unfold np.cumsum. apply list_eq. intros i.
  pose proof (cumsum_from_length ns 0) as Hlen.
  assert (0 < length ns) by (destruct ns; [done|cbn; lia]).
  destruct (decide (i < length ns - 1)) as [Hi|Hi].
  - rewrite lookup_app_l by (rewrite length_take; lia).
    rewrite lookup_take_lt by lia. done.
  - rewrite lookup_app_r by (rewrite length_take; lia).
    rewrite length_take, Hlen.
    replace ((length ns - 1) `min` length ns) with (length ns - 1) by lia.
    destruct (decide (i = length ns - 1)) as [->|Hne'].
    + rewrite Nat.sub_diag, lookup_cons.
      destruct (lookup_lt_is_Some_2 ns (length ns - 1)) as [n Hn]; [lia|].
      rewrite (cumsum_from_lookup ns 0 _ n Hn). f_equal.
      rewrite Nat.add_0_l, <-(sum_list_take_S ns _ n Hn).
      rewrite firstn_all2 by lia. done.
    + rewrite lookup_ge_None_2 by (cbn; lia).
      symmetry. apply lookup_ge_None_2. lia.
Qed.

(** [hsplit] at the cumulative sums without the last cuts the block of
    columns [sum (take i ns) .. sum (take i ns) + n - 1] for the [i]-th
    width [n]. *)
Lemma hsplit_cumsum_lookup a (ns : list nat) i n :
  np.ncols a = sum_list ns → ns !! i = Some n →
  np.hsplit a (take (length (np.cumsum ns) - 1) (np.cumsum ns)) !! i =
  Some (np.slice_cols a (sum_list (take i ns)) (sum_list (take i ns) + n)).
Proof.
  intros Hcols Hi. unfold np.hsplit. cbn [tail]. rewrite Hcols.
  rewrite cumsum_division_points by (by intros ->).
  rewrite lookup_zip_with. unfold np.cumsum.
  rewrite (cumsum_from_lookup ns 0 i n Hi).
  rewrite lookup_cons. destruct i as [|i]; [done|].
  destruct (lookup_lt_is_Some_2 ns i) as [n' Hn'].
  { apply lookup_lt_Some in Hi. lia. }
  rewrite (cumsum_from_lookup ns 0 i n' Hn').
  cbn [mbind option_bind]. rewrite (sum_list_take_S ns i n' Hn'). done.
Qed.

Lemma hsplit_cumsum_length a (ns : list nat) :
  ns ≠ [] →  np.ncols a = sum_list ns →
  length (np.hsplit a (take (length (np.cumsum ns) - 1) (np.cumsum ns)))
    = length ns.
Proof.
  intros Hne Hcols. unfold np.hsplit. cbn [tail]. rewrite Hcols.
  rewrite cumsum_division_points by done.
  rewrite length_zip_with. cbn [length]. unfold np.cumsum.
  rewrite cumsum_from_length. lia.
Qed.

Lemma length_concat_sum {A} (rows : list (list A)) :
  length (concat rows) = sum_list (length <$> rows).
Proof.
  induction rows as [|x rows IH]; [done|].
  cbn [concat]. by rewrite length_app, fmap_cons, sum_list_cons, IH.
Qed.

Lemma concat_block {A} (rows : list (list A)) : ∀ i x,
  rows !! i = Some x →
  take (length x) (drop (sum_list (length <$> take i rows)) (concat rows)) = x.
Proof.
  induction rows as [|x0 rows IH]; intros [|i] x Hi; try done.
  - injection Hi as <-. rewrite take_0, fmap_nil. cbn [sum_list_with concat].
    rewrite drop_0. apply take_app_length.
  - rewrite lookup_cons in Hi.
    rewrite firstn_cons, fmap_cons, sum_list_cons. cbn [concat].
    rewrite drop_app_add'; [|done]. by apply IH.
Qed.

Lemma hstack_data_lookup (arrs : list (np.ndarray2 Num)) n :
  Forall (λ a, length (np.data2 a) = n) arrs →
  length (np.hstack_data n arrs) = n ∧
  ∀ r, r < n →
    np.hstack_data n arrs !! r
      = Some (concat ((λ a, default [] (np.data2 a !! r)) <$> arrs)).
Proof.
  induction 1 as [|a arrs Ha _ [IH1 IH2]]; cbn [np.hstack_data].
  - split; [by rewrite length_replicate|].
    intros r Hr. by rewrite lookup_replicate_2.
  - split; [rewrite length_zip_with; lia|].
    intros r Hr. rewrite lookup_zip_with, (IH2 r Hr).
    destruct (lookup_lt_is_Some_2 (np.data2 a) r) as [row Hrow]; [lia|].
    rewrite fmap_cons. cbn [concat]. rewrite Hrow. done.
Qed.

Lemma hstack_Ok (arrs : list (np.ndarray2 Num)) n :
  arrs ≠ [] → Forall (λ a, np.len2 a = n) arrs →
  np.hstack arrs =
    Ok (np.NDArray2 (n, sum_list (np.ncols <$> arrs)) (np.hstack_data n arrs)).
Proof.
  destruct arrs as [|a0 rest]; [done|]. intros _ Hall.
  apply Forall_cons in Hall as [<- Hall]. unfold np.hstack.
  assert (forallb (λ b, bool_decide (np.len2 b = np.len2 a0)) rest = true)
    as ->; [|done].
  apply forallb_forall. intros b Hb. apply bool_decide_eq_true.
  rewrite Forall_forall in Hall. by apply Hall, list_elem_of_In.
Qed.

(** [hstack] of well-formed matrices with [n] rows each: the result has
    the summed width, and cutting it at the offsets of the parts gives the
    parts back, in order. *)
Lemma hstack_spec (arrs : list (np.ndarray2 Num)) n :
  arrs ≠ [] → Forall (λ a, np.wf2 a ∧ np.len2 a = n) arrs →
  ∃ h, np.hstack arrs = Ok h ∧ np.wf2 h ∧
    np.shape2 h = (n, sum_list (np.ncols <$> arrs)) ∧
    ∀ i a, arrs !! i = Some a →
      np.slice_cols h (sum_list (np.ncols <$> take i arrs))
        (sum_list (np.ncols <$> take i arrs) + np.ncols a) = a.
Proof.
  intros Hne Hall.
  assert (Hdata : Forall (λ a, length (np.data2 a) = n) arrs).
  { eapply Forall_impl; [exact Hall|]. intros a [[Hl _] <-]. exact Hl. }
  destruct (hstack_data_lookup arrs n Hdata) as [Hlen Hrow].
  assert (Hwidth : ∀ r, r < n →
    length <$> ((λ a, default [] (np.data2 a !! r)) <$> arrs)
      = np.ncols <$> arrs).
  { intros r Hr. rewrite <-list_fmap_compose.
    apply Forall_fmap_ext_1. eapply Forall_impl; [exact Hall|].
    intros a [Hwf <-]. cbn.
    destruct (lookup_lt_is_Some_2 (np.data2 a) r) as [row Hro].
    { destruct Hwf as [-> _]. done. }
    rewrite Hro. cbn. by apply (wf2_lookup_row a r). }
  rewrite (hstack_Ok arrs n Hne).
  2:{ eapply Forall_impl; [exact Hall|]. by intros a [_ ?]. }
  eexists. split; [done|]. split; [|split; [done|]].
  - split; [done|]. cbn [np.data2 np.shape2 snd].
    apply Forall_lookup. intros r row Hr.
    pose proof (lookup_lt_Some _ _ _ Hr) as Hrn. rewrite Hlen in Hrn.
    rewrite (Hrow r Hrn) in Hr. injection Hr as <-.
    by rewrite length_concat_sum, (Hwidth r Hrn).
  - intros i a Hi.
    assert (HS : sum_list (np.ncols <$> take (S i) arrs)
                 = sum_list (np.ncols <$> take i arrs) + np.ncols a).
    { rewrite !fmap_take. apply sum_list_take_S.
      by rewrite list_lookup_fmap, Hi. }
    assert (Hle : sum_list (np.ncols <$> take (S i) arrs)
                  ≤ sum_list (np.ncols <$> arrs)).
    { rewrite fmap_take. apply sum_list_take_le. }
    set (st := sum_list (np.ncols <$> take i arrs)) in *.
    unfold np.slice_cols, np.len2.
    change (np.ncols (np.NDArray2 _ _))
      with (sum_list (np.ncols <$> arrs)).
    cbn [np.shape2 np.data2 fst].
    replace (st `min` _) with st by lia.
    replace ((st + np.ncols a) `min` _) with (st + np.ncols a) by lia.
    replace (st + np.ncols a - st) with (np.ncols a) by lia.
    destruct (proj1 (Forall_lookup _ _) Hall i a Hi) as [Hwfa Hna].
    assert (Hda : length (np.data2 a) = n) by (by destruct Hwfa as [-> _]).
    assert (np.data2 a =
      map (λ row, take (np.ncols a) (drop st row)) (np.hstack_data n arrs))
      as Heq.
    { apply list_eq. intros r. rewrite list_lookup_fmap.
      destruct (decide (r < n)) as [Hr|Hr].
      - rewrite (Hrow r Hr). cbn [fmap option_fmap option_map].
        destruct (lookup_lt_is_Some_2 (np.data2 a) r) as [row Hro]; [lia|].
        rewrite Hro. f_equal.
        rewrite <-(wf2_lookup_row a r row Hwfa Hro). unfold st.
        replace (sum_list (np.ncols <$> take i arrs))
          with (sum_list (length <$>
                  take i ((λ a, default [] (np.data2 a !! r)) <$> arrs))).
        + symmetry. apply concat_block. rewrite list_lookup_fmap, Hi. cbn.
          by rewrite Hro.
        + rewrite fmap_take, (Hwidth r Hr), <-fmap_take. done.
      - rewrite !lookup_ge_None_2; [done|lia..]. }
    rewrite <-Heq. destruct a as [[ra ca] da].
    unfold np.len2, np.ncols in *. cbn in *. by subst ra.
Qed.

End np_facts.

(** ** Evaluation of a [VectorValued] basis *)

Section VectorValued_evaluate.
Context {Num : Type} `{!Scalar Num} {Point DomainRange : Type}
  `{!EqDecision DomainRange} {B : Type}
  `{!Basis.ops Num Point DomainRange B}.

Implicit Types (b : B) (bl : list B) (self : VectorValued.t DomainRange B)
  (M ev : np.ndarray3 Num) (evs : list (np.ndarray3 Num)).

(** The loop invariant: the rows before [off] and the slots before [i0] are
    not touched any more, and every remaining evaluation lands in its band
    and slot. *)
Lemma evaluate_loop_spec evs : ∀ M off i0,
  np.wf3 M →
  Forall (λ ev, np.wf3 ev ∧ (np.shape3 ev).1.2 = (np.shape3 M).1.2 ∧
                (np.shape3 ev).2 = 1) evs →
  off + sum_list (np.len3 <$> evs) ≤ np.len3 M →
  i0 + length evs ≤ (np.shape3 M).2 →
  ∃ M', VectorValued._evaluate_loop M off i0 evs = Ok M' ∧
    np.wf3 M' ∧ np.shape3 M' = np.shape3 M ∧
    (∀ r j c, r < off ∨ c < i0 → np.lookup3 M' r j c = np.lookup3 M r j c) ∧
    (∀ i ev, evs !! i = Some ev → ∀ r j c, r < np.len3 ev →
       np.lookup3 M' (off + sum_list (np.len3 <$> take i evs) + r) j c =
       if decide (c = i0 + i) then np.lookup3 ev r j 0
       else np.lookup3 M (off + sum_list (np.len3 <$> take i evs) + r) j c).
Proof.
  induction evs as [|ev evs IH]; intros M off i0 HM Hevs Hrows Hslots.
  { exists M. do 4 (split; [done|]).
    intros i ev Hi. by rewrite lookup_nil in Hi. }
  apply Forall_cons in Hevs as [(Hev & Hp & Hone) Hevs].
  rewrite fmap_cons, sum_list_cons in Hrows. rewrite length_cons in Hslots.
  cbn [VectorValued._evaluate_loop].
  destruct (last_axis_item_spec ev 0 Hev) as (v & -> & Hv & Hshv & Hvl);
    [lia|]. simpl.
  assert (Hlen : np.len2 v = np.len3 ev).
  { unfold np.len2, np.len3. by rewrite Hshv. }
  rewrite <-Hlen.
  destruct (setitem_rows_col_spec M off i0 v HM Hv)
    as (M1 & -> & HM1 & Hsh1 & HM1l).
  { lia. } { unfold np.ncols. by rewrite Hshv. } { lia. }
  simpl. rewrite Hlen in *.
  destruct (IH M1 (off + np.len3 ev) (S i0) HM1) as (M' & -> & HM' & Hsh' & Hkeep & Hband).
  { by rewrite Hsh1. }
  { unfold np.len3 at 3. rewrite Hsh1. fold (np.len3 M). lia. }
  { rewrite Hsh1. lia. }
  simpl.
  exists M'. split; [done|]. split; [done|]. split; [congruence|]. split.
  - intros r j c Hrc. rewrite Hkeep by lia. rewrite HM1l.
    apply decide_False. lia.
  - intros [|i] ev' Hi r j c Hr; simpl in Hi.
    + injection Hi as <-. simpl. rewrite Nat.add_0_r.
      rewrite Hkeep by lia. rewrite HM1l, Hvl.
      replace (off + r - off) with r by lia.
      destruct (decide (c = i0)) as [->|Hc].
      * by rewrite !decide_True by lia.
      * by rewrite !decide_False by lia.
    + rewrite firstn_cons, fmap_cons, sum_list_cons.
      replace (off + (np.len3 ev + sum_list (np.len3 <$> take i evs)) + r)
        with (off + np.len3 ev + sum_list (np.len3 <$> take i evs) + r)
        by lia.
      rewrite (Hband i ev' Hi r j c Hr).
      replace (i0 + S i) with (S i0 + i) by lia.
      destruct (decide (c = S i0 + i)) as [_|_]; [done|].
      rewrite HM1l. apply decide_False. lia.
Qed.

(** The evaluations of the children, as the interface promises them, have
    the heights the parent reserves for their bands. *)
Lemma evaluates_to_len P bl evs :
  Forall2 (VectorValued.evaluates_to P) bl evs →
  np.len3 <$> evs = Basis.n_basis <$> bl.
Proof.
  induction 1 as [|b ev bl evs (_ & _ & Hsh) _ IH]; [done|].
  simpl. f_equal; [|done]. unfold np.len3. by rewrite Hsh.
Qed.

(** Evaluation only reads the children and the number of basis functions
    of the instance: with one row per basis function of the children, every
    child fills its band. *)
Lemma evaluate_spec bl domain_range P evs :
  Forall2 (VectorValued.evaluates_to P) bl evs →
  ∃ M, VectorValued._evaluate
         (VectorValued.Make bl domain_range
            (sum_list (Basis.n_basis <$> bl))) P = Ok M ∧
    np.wf3 M ∧
    np.shape3 M = (sum_list (Basis.n_basis <$> bl), length P, length bl) ∧
    ∀ i b ev, bl !! i = Some b → evs !! i = Some ev →
      ∀ r j c, r < Basis.n_basis b → j < length P → c < length bl →
        np.lookup3 M (VectorValued.band_start bl i + r) j c =
          if decide (c = i) then np.lookup3 ev r j 0 else Some zero.
Proof.
  intros Hevs.
  unfold VectorValued._evaluate, VectorValued.dim_codomain,
    VectorValued.basis_list. simpl.
  assert (HmapM : mapM (λ b, Basis.evaluate b P) bl = Ok evs).
  { apply mapM_result_Ok. eapply Forall2_impl; [exact Hevs|].
    by intros b ev (? & _). }
  rewrite HmapM. simpl.
  pose proof (evaluates_to_len P bl evs Hevs) as Hlens.
  pose proof (Forall2_length _ _ _ Hevs) as Hlength.
  set (M0 := np.zeros3 (sum_list (Basis.n_basis <$> bl), length P, length bl)).
  destruct (evaluate_loop_spec evs M0 0 0) as (M & -> & HM & Hsh & _ & Hband).
  { apply zeros3_wf. }
  { apply Forall_forall. intros ev Hev.
    apply list_elem_of_lookup in Hev as [i Hev].
    destruct (Forall2_lookup_r _ _ _ _ _ Hevs Hev) as (b & _ & _ & Hw & Hs).
    rewrite Hs. by split. }
  { rewrite Hlens. unfold np.len3. simpl. lia. }
  { simpl. lia. }
  exists M. split; [done|]. split; [done|]. split; [done|].
  intros i b ev Hb Hev r j c Hr Hj Hc.
  assert (Hlen : np.len3 ev = Basis.n_basis b).
  { destruct (Forall2_lookup_lr _ _ _ _ _ _ Hevs Hb Hev) as (_ & _ & Hs).
    unfold np.len3. by rewrite Hs. }
  specialize (Hband i ev Hev r j c). rewrite Hlen in Hband.
  rewrite fmap_take, Hlens, <-fmap_take, Nat.add_0_l in Hband.
  unfold VectorValued.band_start. rewrite (Hband Hr), Nat.add_0_l.
  destruct (decide (c = i)) as [_|_]; [done|].
  apply zeros3_lookup; [|done..].
  pose proof (sum_list_take_S (Basis.n_basis <$> bl) i (Basis.n_basis b)) as HS.
  rewrite list_lookup_fmap, Hb in HS. specialize (HS eq_refl).
  pose proof (sum_list_take_le (Basis.n_basis <$> bl) (S i)).
  rewrite <-!fmap_take in *. unfold M0. lia.
Qed.

(** C1: evaluating a [VectorValued] basis built from the children B1..Bk
    at the points P gives a well-formed array of shape
    (n_basis, n_points, dim_codomain); the rows of the band of child i, which
    starts after the bands of the children before it and has Bi.n_basis
    rows, hold Bi.evaluate(P) in coordinate slot i and zero in every other
    slot. *)
Theorem evaluate_bands bl self P evs :
  VectorValued.__init__ bl = Ok self →
  Forall2 (VectorValued.evaluates_to P) bl evs →
  ∃ M, VectorValued._evaluate self P = Ok M ∧ np.wf3 M ∧
    np.shape3 M = (VectorValued.n_basis self, length P,
                   VectorValued.dim_codomain self) ∧
    ∀ i b ev, bl !! i = Some b → evs !! i = Some ev →
      ∀ r j c, r < Basis.n_basis b → j < length P →
        c < VectorValued.dim_codomain self →
        np.lookup3 M (VectorValued.band_start bl i + r) j c =
          if decide (c = i) then np.lookup3 ev r j 0 else Some zero.
Proof.
  intros Hinit Hevs.
  apply init_Ok_iff in Hinit as (b0 & rest & _ & _ & _ & ->).
  destruct (evaluate_spec bl (Basis.domain_range b0) P evs Hevs)
    as (M & HM & Hwf & Hshape & Hbands).
  exists M. unfold VectorValued.dim_codomain, VectorValued.basis_list.
  cbn [VectorValued._basis_list VectorValued.n_basis].
  split; [exact HM|]. split; [exact Hwf|]. split; [exact Hshape|].
  exact Hbands.
Qed.

End VectorValued_evaluate.

(** ** The Gram matrix of a [VectorValued] basis *)

Section VectorValued_gram.
Context {Num : Type} `{!Scalar Num} {Point DomainRange : Type}
  `{!EqDecision DomainRange} {B : Type}
  `{!Basis.ops Num Point DomainRange B}.

Implicit Types (b : B) (bl : list B) (self : VectorValued.t DomainRange B).

Lemma gram_matrices_shape bl :
  Forall VectorValued.has_gram_matrix bl →
  Forall np.wf2 (Basis.gram_matrix <$> bl) ∧
  np.len2 <$> (Basis.gram_matrix <$> bl) = Basis.n_basis <$> bl ∧
  np.ncols <$> (Basis.gram_matrix <$> bl) = Basis.n_basis <$> bl.
Proof.
  induction 1 as [|b bl [Hwf Hsh] _ (IH1 & IH2 & IH3)].
  { by repeat split. }
  rewrite !fmap_cons. split; [by constructor|].
  unfold np.len2, np.ncols in *. rewrite Hsh, IH2, IH3. done.
Qed.

(** C3: the Gram matrix of a [VectorValued] basis is the block-diagonal
    assembly of the Gram matrices of its children in child order: the block
    of the rows of child i and the columns of child j is the Gram matrix of
    child i when i = j and is zero otherwise. *)
Theorem gram_matrix_block_diagonal bl self :
  VectorValued.__init__ bl = Ok self →
  Forall VectorValued.has_gram_matrix bl →
  np.wf2 (VectorValued._gram_matrix self) ∧
  np.shape2 (VectorValued._gram_matrix self)
    = (VectorValued.n_basis self, VectorValued.n_basis self) ∧
  ∀ i j bi bj, bl !! i = Some bi → bl !! j = Some bj →
    ∀ r c, r < Basis.n_basis bi → c < Basis.n_basis bj →
      np.lookup2 (VectorValued._gram_matrix self)
        (VectorValued.band_start bl i + r)
        (VectorValued.band_start bl j + c) =
      if decide (i = j) then np.lookup2 (Basis.gram_matrix bi) r c
      else Some zero.
Proof.
  intros Hinit Hgram.
  apply init_Ok_iff in Hinit as (b0 & rest & Hbl & _ & _ & ->).
  unfold VectorValued._gram_matrix, VectorValued.basis_list.
  cbn [VectorValued._basis_list VectorValued.n_basis].
  destruct (gram_matrices_shape bl Hgram) as (Hwf & Hlen & Hcols).
  destruct (block_diag_spec (Basis.gram_matrix <$> bl)) as (HG & Hsh & Hcell).
  { by rewrite Hbl. } { done. }
  split; [done|]. split; [by rewrite Hsh, Hlen, Hcols|].
  intros i j bi bj Hi Hj r c Hr Hc.
  specialize (Hcell i j (Basis.gram_matrix bi) (Basis.gram_matrix bj)).
  rewrite !list_lookup_fmap, Hi, Hj in Hcell.
  specialize (Hcell eq_refl eq_refl r c).
  rewrite !fmap_take, Hlen, Hcols in Hcell.
  unfold VectorValued.band_start. rewrite !fmap_take. apply Hcell.
  - destruct (proj1 (Forall_lookup _ _) Hgram i bi Hi) as [_ Hs].
    unfold np.len2. by rewrite Hs.
  - destruct (proj1 (Forall_lookup _ _) Hgram j bj Hj) as [_ Hs].
    unfold np.ncols. by rewrite Hs.
Qed.

End VectorValued_gram.

(** ** Differentiation of a [VectorValued] representation *)

Section VectorValued_derivative.
Context {Num : Type} `{!Scalar Num} {Point DomainRange : Type}
  `{!EqDecision DomainRange} {B : Type}
  `{!Basis.ops Num Point DomainRange B}.

Implicit Types (b : B) (bl : list B) (self : VectorValued.t DomainRange B)
  (coefs : np.ndarray2 Num) (derived : list (B * np.ndarray2 Num)).

(** [hsplit] at the cumulative [n_basis] without the last cuts exactly the
    blocks of the children. *)
Lemma hsplit_coefficient_blocks bl coefs :
  bl ≠ [] → np.ncols coefs = sum_list (Basis.n_basis <$> bl) →
  np.hsplit coefs
    (take (length (np.cumsum (Basis.n_basis <$> bl)) - 1)
       (np.cumsum (Basis.n_basis <$> bl)))
  = VectorValued.coefficient_blocks bl coefs.
Proof.
  intros Hne Hcols. apply list_eq. intros i.
  unfold VectorValued.coefficient_blocks. rewrite list_lookup_imap.
  destruct (bl !! i) as [b|] eqn:Hb.
  - rewrite (hsplit_cumsum_lookup coefs _ i (Basis.n_basis b) Hcols).
    + unfold VectorValued.band_start. by rewrite fmap_take.
    + by rewrite list_lookup_fmap, Hb.
  - apply lookup_ge_None_2. rewrite hsplit_cumsum_length; [| |done].
    + rewrite length_fmap. by apply lookup_ge_None_1.
    + by destruct bl.
Qed.

Lemma derived_coefs_shape bl coefs order derived :
  Forall2 (VectorValued.derives_to order)
    (zip bl (VectorValued.coefficient_blocks bl coefs)) derived →
  Forall (λ a, np.wf2 a ∧ np.len2 a = np.len2 coefs) derived.*2 ∧
  np.ncols <$> derived.*2 = Basis.n_basis <$> derived.*1.
Proof.
  intros Hder. split.
  - apply Forall_lookup. intros i c' Hi.
    rewrite list_lookup_fmap in Hi.
    destruct (derived !! i) as [bc'|] eqn:Hbc'; [|done].
    injection Hi as <-.
    destruct (Forall2_lookup_r _ _ _ _ _ Hder Hbc') as (bc & Hbc & _ & Hwf & Hsh).
    split; [done|]. unfold np.len2 at 1. rewrite Hsh. cbn [fst].
    apply lookup_zip_with_Some in Hbc as (b & blk & -> & _ & Hblk).
    unfold VectorValued.coefficient_blocks in Hblk.
    rewrite list_lookup_imap in Hblk.
    destruct (bl !! i); [|done]. by injection Hblk as <-.
  - induction Hder as [|bc bc' l derived (_ & _ & Hsh) _ IH]; [done|].
    rewrite !fmap_cons. f_equal; [|done]. unfold np.ncols. by rewrite Hsh.
Qed.

(** C2: differentiation splits the coefficient matrix into the column
    blocks of the children, differentiates every (child, block) pair on its
    own and returns the [VectorValued] basis of the differentiated children
    with their coefficient blocks joined in the original order; splitting
    the result again gives the children's results back, and evaluating the
    new basis gives, band by band, the evaluations of the differentiated
    children: differentiation and the decomposition into coordinates
    commute. *)
Theorem derivative_commutes_with_decomposition
    bl self coefs order derived self' P evs :
  VectorValued.__init__ bl = Ok self →
  np.ncols coefs = VectorValued.n_basis self →
  Forall2 (VectorValued.derives_to order)
    (zip bl (VectorValued.coefficient_blocks bl coefs)) derived →
  VectorValued.__init__ derived.*1 = Ok self' →
  Forall2 (VectorValued.evaluates_to P) derived.*1 evs →
  ∃ coefs' M,
    VectorValued._derivative_basis_and_coefs self coefs order
      = Ok (self', coefs') ∧
    np.wf2 coefs' ∧
    np.shape2 coefs' = (np.len2 coefs, VectorValued.n_basis self') ∧
    VectorValued.coefficient_blocks derived.*1 coefs' = derived.*2 ∧
    VectorValued._evaluate self' P = Ok M ∧
    ∀ i b' ev, derived.*1 !! i = Some b' → evs !! i = Some ev →
      ∀ r j c, r < Basis.n_basis b' → j < length P →
        c < VectorValued.dim_codomain self' →
        np.lookup3 M (VectorValued.band_start derived.*1 i + r) j c =
          if decide (c = i) then np.lookup3 ev r j 0 else Some zero.
Proof.
  intros Hinit Hcols Hder Hinit' Hevs.
  pose proof Hinit as Hself.
  apply init_Ok_iff in Hself as (b0 & rest & Hbl & _ & _ & ->).
  cbn [VectorValued.n_basis] in Hcols.
  assert (Hne : bl ≠ []) by (by rewrite Hbl).
  destruct (derived_coefs_shape bl coefs order derived Hder) as [Hshape Hwidth].
  assert (Hlen : length derived = length bl).
  { rewrite <-(Forall2_length _ _ _ Hder), length_zip_with.
    unfold VectorValued.coefficient_blocks. rewrite length_imap. lia. }
  destruct (hstack_spec derived.*2 (np.len2 coefs)) as (h & Hh & Hhwf & Hhsh & Hblk).
  { destruct derived; [|done]. destruct bl; [done|]. cbn in Hlen. lia. }
  { done. }
  pose proof Hinit' as Hself'.
  apply init_Ok_iff in Hself' as (b0' & rest' & Hbl' & _ & _ & Hself').
  destruct (evaluate_spec derived.*1 (Basis.domain_range b0') P evs Hevs)
    as (M & HM & _ & _ & Hbands).
  rewrite <-Hself' in HM.
  assert (Hk : VectorValued.dim_codomain self' = length derived.*1)
    by (by rewrite Hself').
  exists h, M. split; [|split; [done|]; split; [|split; [|split; [done|]]]].
  4:{ intros i b' ev Hi Hev r j c Hr Hj Hc. apply (Hbands i b' ev); try done.
      by rewrite <-Hk. }
  - unfold VectorValued._derivative_basis_and_coefs, VectorValued.basis_list.
    cbn [VectorValued._basis_list].
    rewrite (hsplit_coefficient_blocks bl coefs Hne Hcols).
    assert (mapM (λ bc : B * np.ndarray2 Num,
                    Basis._derivative_basis_and_coefs bc.1 bc.2 order)
              (zip bl (VectorValued.coefficient_blocks bl coefs))
            = Ok derived) as ->.
    { apply mapM_result_Ok. eapply Forall2_impl; [exact Hder|].
      by intros bc bc' (? & _). }
    cbn [mbind result_bind]. destruct derived as [|d derived'] eqn:Hd.
    { destruct bl; [done|]. cbn in Hlen. lia. }
    rewrite <-Hd in *. rewrite Hinit'. cbn [mbind result_bind].
    rewrite Hh. done.
  - rewrite Hhsh, Hwidth, Hself'. done.
  - apply list_eq. intros i.
    unfold VectorValued.coefficient_blocks. rewrite list_lookup_imap.
    rewrite !list_lookup_fmap.
    destruct (derived !! i) as [[b' c']|] eqn:Hi; [|done].
    cbn [fmap option_fmap option_map fst snd]. f_equal.
    assert (Hc' : np.ncols c' = Basis.n_basis b').
    { apply (f_equal (λ l, l !! i)) in Hwidth.
      rewrite !list_lookup_fmap, Hi in Hwidth. by injection Hwidth. }
    unfold VectorValued.band_start.
    rewrite fmap_take, <-Hwidth, <-fmap_take, <-Hc'.
    apply Hblk. by rewrite list_lookup_fmap, Hi.
Qed.

End VectorValued_derivative.

(** ** Selecting a prefix of the coordinates *)

Section prefix_selection.
Context {A : Type}.

(** [l[0:k]] is the prefix of length [k]. *)
Lemma omap_lookup_seq (l : list A) (n : nat) :
  n ≤ length l → omap (λ i : nat, l !! i) (seq 0 n) = take n l.
Proof.
  induction n as [|n IH]; intros Hn; [done|].
  rewrite seq_S, omap_app, IH by lia.
  destruct (lookup_lt_is_Some_2 l n) as [x Hx]; [lia|].
  rewrite (take_S_r l n x Hx). cbn. by rewrite Hx.
Qed.

Lemma py_slice_prefix (l : list A) (k : nat) :
  py_slice l (Range 0 (Z.of_nat k) 1) = take k l.
Proof.
  unfold py_slice, adjust_index, slice_length. cbn [start stop step].
  set (len := Z.of_nat (length l)).
  assert (Hsta : (if (len <=? 0)%Z then len else 0%Z) = 0%Z).
  { destruct (Z.leb_spec len 0); lia. }
  change (0 <? 0)%Z with false. change (1 <? 0)%Z with false.
  cbn match. rewrite Hsta.
  assert (Hneg : (Z.of_nat k <? 0)%Z = false) by (apply Z.ltb_ge; lia).
  rewrite Hneg.
  set (sto := if (len <=? Z.of_nat k)%Z then len else Z.of_nat k).
  assert (Hsto : sto = Z.of_nat (k `min` length l)).
  { unfold sto, len. destruct (Z.leb_spec (Z.of_nat (length l)) (Z.of_nat k)); lia. }
  assert (Hn : Z.to_nat (if (0 <? sto)%Z then (sto - 0 - 1) / 1 + 1 else 0)%Z
               = k `min` length l).
  { destruct (Z.ltb_spec 0 sto); [rewrite Z.div_1_r|]; lia. }
  rewrite Hn.
  erewrite (list_omap_ext _ (λ i : nat, l !! i) _ (seq 0 (k `min` length l))).
  - rewrite omap_lookup_seq by lia.
    destruct (decide (k ≤ length l)) as [Hk|Hk].
    + by replace (k `min` length l) with k by lia.
    + by rewrite !take_ge by lia.
  - apply Forall_Forall2_diag, Forall_forall. intros i _. f_equal. lia.
Qed.

(** The column mask of a prefix selection: the columns of the selected
    children, then those of the others. *)
Lemma mask_prefix (size : A → nat) (l : list A) : ∀ (g : nat → bool) k,
  (∀ i, g i = bool_decide (i < k)) →
  concat (imap (λ i x, if g i then replicate (size x) true
                       else replicate (size x) false) l)
  = replicate (sum_list (size <$> take k l)) true
    ++ replicate (sum_list (size <$> drop k l)) false.
Proof.
  induction l as [|x l IH]; intros g k Hg.
  { by rewrite take_nil, drop_nil. }
  rewrite imap_cons. cbn [concat]. rewrite Hg.
  destruct k as [|k].
  - rewrite bool_decide_eq_false_2 by lia.
    match goal with |- _ ++ ?c = _ =>
      replace c with
        (replicate (sum_list (size <$> take 0 l)) true
         ++ replicate (sum_list (size <$> drop 0 l)) false)
    end.
    + rewrite !take_0, !drop_0, fmap_cons, sum_list_cons.
      cbn [fmap list_fmap sum_list_with replicate app].
      by rewrite replicate_add.
    + symmetry. apply (IH (g ∘ S) 0). intros i. cbn. rewrite Hg.
      by rewrite !bool_decide_eq_false_2 by lia.
  - rewrite bool_decide_eq_true_2 by lia.
    match goal with |- _ ++ ?c = _ =>
      replace c with
        (replicate (sum_list (size <$> take k l)) true
         ++ replicate (sum_list (size <$> drop k l)) false)
    end.
    + rewrite firstn_cons, skipn_cons, fmap_cons, sum_list_cons.
      by rewrite replicate_add, app_assoc.
    + symmetry. apply (IH (g ∘ S) k). intros i. cbn. rewrite Hg.
      apply bool_decide_ext. lia.
Qed.

Lemma mask_filter_prefix (m n : nat) : ∀ row : list A,
  np.mask_filter (replicate m true ++ replicate n false) row = take m row.
Proof.
  unfold np.mask_filter. induction m as [|m IH]; intros row.
  - rewrite take_0. cbn [replicate app]. revert row.
    induction n as [|n IHn]; intros [|x row]; try done. cbn. apply IHn.
  - destruct row as [|x row]; [done|]. cbn. f_equal. apply IH.
Qed.

Lemma filter_true_prefix (m n : nat) :
  length (filter (λ b : bool, b = true)
            (replicate m true ++ replicate n false)) = m.
Proof.
  induction m as [|m IH].
  - cbn [replicate app]. induction n as [|n IHn]; [done|].
    cbn [replicate]. by rewrite filter_cons_False.
  - cbn [replicate app]. rewrite filter_cons_True by done. cbn. by rewrite IH.
Qed.

End prefix_selection.

Lemma select_cols_prefix {Num : Type} (a : np.ndarray2 Num) (m n : nat) :
  np.ncols a = m + n →
  np.select_cols a (replicate m true ++ replicate n false)
    = Ok (np.slice_cols a 0 m).
Proof.
  intros Hcols. unfold np.select_cols, np.slice_cols.
  rewrite decide_True by (rewrite length_app, !length_replicate; lia).
  rewrite filter_true_prefix, Hcols.
  replace ((m `min` (m + n)) - (0 `min` (m + n))) with m by lia.
  replace (0 `min` (m + n)) with 0 by lia. do 2 f_equal.
  apply map_ext. intros row. by rewrite mask_filter_prefix, drop_0.
Qed.

Section VectorValued_coordinate.
Context {Num : Type} `{!Scalar Num} {Point DomainRange : Type}
  `{!EqDecision DomainRange} {B : Type}
  `{!Basis.ops Num Point DomainRange B} {Attrs : Type}.

Implicit Types (b : B) (bl : list B) (self : VectorValued.t DomainRange B)
  (fd : FDataBasis.t Num (VectorValued.basis_object DomainRange B) Attrs).

(** A non-empty prefix of the children of a basis is again a valid list of
    children. *)
Lemma init_take bl self (k : nat) :
  VectorValued.__init__ bl = Ok self → 1 ≤ k →
  VectorValued.__init__ (take k bl) =
    Ok (VectorValued.Make (take k bl) (VectorValued.domain_range self)
          (VectorValued.band_start bl k)).
Proof.
  intros Hinit Hk.
  apply init_Ok_iff in Hinit as (b0 & rest & -> & Hsc & Hdom & ->).
  apply init_Ok_iff. destruct k as [|k]; [lia|].
  exists b0, (take k rest). split; [done|].
  split; [by apply Forall_take|]. split; [by apply Forall_take|]. done.
Qed.

Lemma range_contains_prefix (k i : nat) :
  range_contains (Range 0 (Z.of_nat k) 1) (Z.of_nat i) = bool_decide (i < k).
Proof.
  unfold range_contains. cbn [start stop step].
  change (0 <? 1)%Z with true. cbn match.
  rewrite Z.sub_0_r, Z.mod_1_r. change (0 =? 0)%Z with true.
  rewrite andb_true_r.
  assert ((0 <=? Z.of_nat i)%Z = true) as -> by (apply Z.leb_le; lia).
  cbn [andb]. destruct (Z.ltb_spec (Z.of_nat i) (Z.of_nat k)).
  - by rewrite bool_decide_eq_true_2 by lia.
  - by rewrite bool_decide_eq_false_2 by lia.
Qed.

(** C4, as amended: for a non-empty prefix [0, k) of the coordinates,
    [_coordinate_nonfull] returns a representation whose basis is the
    [VectorValued] basis of the first k children, whose coefficient matrix
    is the slice of the original one to its first
    sum(Bi.n_basis for i < k) columns, whose coordinate names are the first
    k of the original ones, and whose remaining attributes are those of the
    original. *)
Theorem coordinate_nonfull_prefix bl self fd (k : nat) :
  VectorValued.__init__ bl = Ok self →
  np.ncols (FDataBasis.coefficients fd) = VectorValued.n_basis self →
  1 ≤ k →
  ∃ sub, VectorValued.__init__ (take k bl) = Ok sub ∧
    VectorValued._coordinate_nonfull self fd
      (VectorValued.KRange (Range 0 (Z.of_nat k) 1)) =
    Ok (FDataBasis.Make (VectorValued.Vector sub)
          (np.slice_cols (FDataBasis.coefficients fd) 0
             (VectorValued.band_start bl k))
          (take k (FDataBasis.coordinate_names fd))
          (FDataBasis.attrs fd)).
Proof.
  intros Hinit Hcols Hk. eexists. split; [by apply init_take|].
  pose proof (init_take bl self k Hinit Hk) as Hsub.
  apply init_Ok_iff in Hinit as (b0 & rest & Hbl & _ & _ & ->).
  cbn [VectorValued.n_basis VectorValued.domain_range] in *.
  unfold VectorValued._coordinate_nonfull, VectorValued.basis_list.
  cbn [VectorValued._basis_list]. rewrite !py_slice_prefix, Hsub.
  unfold np.concatenate1, np.ones_bool, np.zeros_bool.
  rewrite (mask_prefix Basis.n_basis bl _ k)
    by (intros i; apply range_contains_prefix).
  rewrite Hbl at 1. rewrite imap_cons.
  cbn [fmap result_fmap mbind result_bind].
  rewrite select_cols_prefix.
  - done.
  - rewrite Hcols, <-(take_drop k bl) at 1.
    by rewrite fmap_app, sum_list_with_app.
Qed.

End VectorValued_coordinate.

(** C4, where the claim fails: selecting the empty prefix [0, 0) makes
    [_coordinate_nonfull] build a [VectorValued] basis of no children, which
    raises [IndexError], so that no representation is returned; and the
    coordinate names of a proper prefix are cut to the prefix, not shared
    with the original. *)
Lemma coordinate_nonfull_prefix_counterexample :
  VectorValued._coordinate_nonfull Samples.basis
    (Samples.fdatabasis Samples.basis)
    (VectorValued.KRange (Range 0 0 1)) = Raise IndexError ∧
  (¬ ∃ fd', VectorValued._coordinate_nonfull Samples.basis
              (Samples.fdatabasis Samples.basis)
              (VectorValued.KRange (Range 0 0 1)) = Ok fd') ∧
  ∃ fd', VectorValued._coordinate_nonfull Samples.basis
           (Samples.fdatabasis Samples.basis)
           (VectorValued.KRange (Range 0 1 1)) = Ok fd' ∧
         FDataBasis.coordinate_names fd'
           ≠ FDataBasis.coordinate_names (Samples.fdatabasis Samples.basis).
Proof.
  split; [reflexivity|]. split.
  - intros [fd' Hfd']. discriminate Hfd'.
  - eexists. split; [reflexivity|]. discriminate.
Qed.

Lemma coordinate_nonfull_prefix_witness :
  ∃ sub, VectorValued.__init__ (take 1 Samples.children) = Ok sub ∧
    VectorValued._coordinate_nonfull Samples.basis
      (Samples.fdatabasis Samples.basis)
      (VectorValued.KRange (Range 0 (Z.of_nat 1) 1)) =
    Ok (FDataBasis.Make (VectorValued.Vector sub)
          (np.slice_cols Samples.coefs 0
             (VectorValued.band_start Samples.children 1))
          (take 1 [Some "x"; Some "y"]) "dataset").
Proof.
  apply (coordinate_nonfull_prefix Samples.children Samples.basis
           (Samples.fdatabasis Samples.basis) 1).
  - reflexivity.
  - reflexivity.
  - lia.
Defined.

(** ** [DDGTransformer] *)

Lemma omap_total_lookup {A C} (f : A → option C) (l : list A) :
  Forall (λ x, is_Some (f x)) l →
  length (omap f l) = length l ∧ ∀ j, omap f l !! j = l !! j ≫= f.
Proof.
  induction 1 as [|x l [y Hy] _ [IH1 IH2]]; [done|].
  assert (omap f (x :: l) = y :: omap f l) as ->.
  { change (omap f (x :: l))
      with (match f x with Some z => z :: omap f l | None => omap f l end).
    by rewrite Hy. }
  split.
  - cbn [length]. f_equal. exact IH1.
  - intros [|j]; rewrite !lookup_cons; [done|]. apply IH2.
Qed.

(** The transpose of [k] vectors of length [n]: cell (s, j) is cell [s] of
    vector [j]. *)
Lemma transpose_rows_spec {Num} (n : nat) : ∀ vs : list (list Num),
  Forall (λ v, length v = n) vs →
  length (np.transpose_rows n vs) = n ∧
  Forall (λ row, length row = length vs) (np.transpose_rows n vs) ∧
  ∀ s j, s < n →
    (row ← np.transpose_rows n vs !! s; row !! j) = (v ← vs !! j; v !! s).
Proof.
  induction n as [|n IH]; intros vs Hvs.
  { split; [done|]. split; [constructor|]. lia. }
  cbn [np.transpose_rows].
  destruct (omap_total_lookup head vs) as [Hlen Hhead].
  { eapply Forall_impl; [exact Hvs|]. intros [|x v] Hv; [done|by eexists]. }
  destruct (IH (map tail vs)) as (IH1 & IH2 & IH3).
  { apply Forall_fmap. eapply Forall_impl; [exact Hvs|].
    intros [|x v] Hv; cbn in *; lia. }
  rewrite length_map in IH2.
  split; [cbn [length]; by rewrite IH1|]. split; [by constructor|].
  intros [|s] j Hs; rewrite lookup_cons.
  - cbn [mbind option_bind]. rewrite Hhead.
    destruct (vs !! j) as [v|]; [|done]. by destruct v.
  - rewrite (IH3 s j) by lia. rewrite list_lookup_fmap.
    destruct (vs !! j) as [v|]; [|done]. by destruct v.
Qed.

Lemma transpose_vectors_Ok {Num} (n : nat) (vs : list (list Num)) :
  vs ≠ [] → Forall (λ v, length v = n) vs →
  np.transpose_vectors vs =
    Ok (np.Array2 (np.NDArray2 (n, length vs) (np.transpose_rows n vs))).
Proof.
  destruct vs as [|v rest]; [done|]. intros _ Hall.
  apply Forall_cons in Hall as [<- Hall]. unfold np.transpose_vectors.
  assert (forallb (λ w, bool_decide (length w = length v)) rest = true)
    as ->; [|done].
  apply forallb_forall. intros w Hw. apply bool_decide_eq_true.
  rewrite Forall_forall in Hall. by apply Hall, list_elem_of_In.
Qed.

Section DDGTransformer_facts.
Context {Num X Y Classes Depth Distribution : Type}
  `{!DDGTransformer.collaborators Num X Y Classes Depth Distribution}.

Implicit Types (self fitted : DDGTransformer.t Classes Depth Distribution)
  (ds : list Distribution) (ps : list (list Num)).



End DDGTransformer_facts.

(** ** Concatenation of functional data objects *)

Section FData_facts.
Context {Num Domain : Type} `{!EqDecision Domain}.

Implicit Types (a b fd : FData.t Num Domain).

Lemma concatenate_last_spec (x y : np.ndarray3 Num) :
  np.wf3 x → np.wf3 y → (np.shape3 x).1 = (np.shape3 y).1 →
  ∃ z, np.concatenate_last x y = Ok z ∧ np.wf3 z ∧
    np.shape3 z = ((np.shape3 x).1, (np.shape3 x).2 + (np.shape3 y).2) ∧
    ∀ r j c, np.lookup3 z r j c =
      if decide (c < (np.shape3 x).2) then np.lookup3 x r j c
      else np.lookup3 y r j (c - (np.shape3 x).2).
Proof.
  intros Hx Hy Hsh. unfold np.concatenate_last.
  rewrite decide_True by done. eexists. split; [done|].
  destruct x as [[[n0 n1] n2] dx], y as [[[m0 m1] m2] dy].
  cbn in Hsh. injection Hsh as <- <-.
  destruct Hx as [Hx1 Hx2], Hy as [Hy1 Hy2]. cbn in *.
  rewrite Forall_lookup in Hx2. rewrite Forall_lookup in Hy2.
  split; [|split; [done|]].
  - split; cbn.
    + rewrite length_zip_with. lia.
    + apply Forall_lookup. intros r row Hr.
      apply lookup_zip_with_Some in Hr as (rx & ry & -> & Hrx & Hry).
      destruct (Hx2 r rx Hrx) as [Hlx Hcx]. destruct (Hy2 r ry Hry) as [Hly Hcy].
      split; [rewrite length_zip_with; lia|].
      rewrite Forall_lookup in Hcx. rewrite Forall_lookup in Hcy.
      apply Forall_lookup. intros j cell Hj.
      apply lookup_zip_with_Some in Hj as (cx & cy & -> & Hcx' & Hcy').
      rewrite length_app, (Hcx j cx Hcx'), (Hcy j cy Hcy'). done.
  - intros r j c. unfold np.lookup3. cbn. rewrite lookup_zip_with.
    destruct (dx !! r) as [rx|] eqn:Hrx; cbn.
    2:{ destruct (decide _); [done|].
        apply lookup_ge_None_1 in Hrx.
        rewrite lookup_ge_None_2 by lia. done. }
    destruct (lookup_lt_is_Some_2 dy r) as [ry Hry].
    { apply lookup_lt_Some in Hrx. lia. }
    rewrite Hry. cbn. rewrite lookup_zip_with.
    destruct (Hx2 r rx Hrx) as [Hlx Hcx]. destruct (Hy2 r ry Hry) as [Hly Hcy].
    destruct (rx !! j) as [cx|] eqn:Hcx'; cbn.
    2:{ destruct (decide _); [done|].
        apply lookup_ge_None_1 in Hcx'.
        rewrite (lookup_ge_None_2 ry) by lia. done. }
    destruct (lookup_lt_is_Some_2 ry j) as [cy Hcy'].
    { apply lookup_lt_Some in Hcx'. lia. }
    rewrite Hcy'. cbn.
    rewrite Forall_lookup in Hcx. specialize (Hcx j cx Hcx').
    destruct (decide (c < n2)).
    + by rewrite lookup_app_l by lia.
    + rewrite lookup_app_r by lia. by rewrite Hcx.
Qed.

(** What the concatenation as coordinates returns. *)
Lemma concatenate_Ok a b fd :
  FData.wf a → FData.wf b → FData.concatenate a b = Ok fd →
  FData.wf fd ∧
  FData.dim_domain fd = FData.dim_domain a ∧
  FData.dim_codomain fd = FData.dim_codomain a + FData.dim_codomain b ∧
  FData.n_samples fd = FData.n_samples a ∧
  ∀ r j c, np.lookup3 (FData.data_matrix fd) r j c =
    if decide (c < FData.dim_codomain a)
    then np.lookup3 (FData.data_matrix a) r j c
    else np.lookup3 (FData.data_matrix b) r j (c - FData.dim_codomain a).
Proof.
  intros (Ha & Hca & Hna) (Hb & Hcb & Hnb). unfold FData.concatenate.
  destruct (negb _); [done|]. intros Hfd.
  apply result_bind_Ok in Hfd as (z & Hz & [= <-]).
  unfold np.concatenate_last in Hz.
  destruct (decide _) as [Hsh|]; [|done].
  destruct (concatenate_last_spec _ _ Ha Hb Hsh) as (z' & Hz' & Hwf & Hshz & Hcell).
  unfold np.concatenate_last in Hz'. rewrite decide_True in Hz' by done.
  rewrite Hz in Hz'. injection Hz' as <-.
  cbn [FData.dim_domain FData.dim_codomain FData.data_matrix
       FData.coordinate_names].
  split; [|split; [done|]; split; [done|]; split].
  - split; [done|]. cbn [FData.data_matrix FData.dim_codomain
                         FData.coordinate_names].
    rewrite Hshz, length_app. cbn [snd]. lia.
  - unfold FData.n_samples, np.len3. cbn [FData.data_matrix].
    by rewrite Hshz.
  - intros r j c. rewrite Hcell, Hca. done.
Qed.

(** The concatenation returns when the two objects have the same samples,
    points and domain. *)
Lemma concatenate_compatible a b :
  (np.shape3 (FData.data_matrix a)).1 = (np.shape3 (FData.data_matrix b)).1 →
  FData.dim_domain a = FData.dim_domain b → FData.domain a = FData.domain b →
  ∃ fd, FData.concatenate a b = Ok fd.
Proof.
  intros Hsh Hdim Hdom. unfold FData.concatenate, FData.n_samples, np.len3.
  rewrite !bool_decide_eq_true_2 by (done || by rewrite Hsh).
  cbn [negb andb]. unfold np.concatenate_last.
  rewrite decide_True by done. by eexists.
Qed.

(** The concatenation keeps the samples and the points of the first
    object. *)
Lemma concatenate_shape a b fd :
  FData.concatenate a b = Ok fd →
  (np.shape3 (FData.data_matrix fd)).1 = (np.shape3 (FData.data_matrix a)).1.
Proof.
  unfold FData.concatenate. destruct (negb _); [done|]. intros Hfd.
  apply result_bind_Ok in Hfd as (z & Hz & [= <-]).
  unfold np.concatenate_last in Hz.
  destruct (decide _); [|done]. by injection Hz as <-.
Qed.

End FData_facts.

(** ** [ParametricPlot] *)

Section ParametricPlot_facts.
Context {Num Domain : Type} `{!EqDecision Domain} {Fig Ax Kwargs : Type}
  `{!ParametricPlot.canvas Fig Ax}.

Local Abbreviation M := (ParametricPlot.M (Num:=Num) (Domain:=Domain)
                           (Fig:=Fig) (Ax:=Ax) (Kwargs:=Kwargs)).
Local Abbreviation world := (ParametricPlot.world Num Domain Fig Ax Kwargs).

Implicit Types (w : world) (fd : FData.t Num Domain).

Lemma bind_Ok {A C} (m : M A) (f : A → M C) w a w' :
  m w = (Ok a, w') → ParametricPlot.bind m f w = f a w'.
Proof. unfold ParametricPlot.bind. by intros ->. Qed.

Lemma bind_Raise {A C} (m : M A) (f : A → M C) w e w' :
  m w = (Raise e, w') → ParametricPlot.bind m f w = (Raise e, w').
Proof. unfold ParametricPlot.bind. by intros ->. Qed.

(** *** Steps that leave the instance alone *)

Lemma keeps_ret {A} (a : A) :
  ParametricPlot.keeps_self (ParametricPlot.ret a : M A).
Proof. by intros w. Qed.

Lemma keeps_lift {A} (r : result A) :
  ParametricPlot.keeps_self (ParametricPlot.lift r : M A).
Proof. by intros w. Qed.

Lemma keeps_emit d :
  ParametricPlot.keeps_self (ParametricPlot.emit d : M unit).
Proof. by intros w. Qed.

Lemma keeps_get_self :
  ParametricPlot.keeps_self (ParametricPlot.get_self : M _).
Proof. by intros w. Qed.

Lemma keeps_bind {A C} (m : M A) (f : A → M C) :
  ParametricPlot.keeps_self m → (∀ a, ParametricPlot.keeps_self (f a)) →
  ParametricPlot.keeps_self (ParametricPlot.bind m f).
Proof.
  intros Hm Hf w. unfold ParametricPlot.bind. specialize (Hm w).
  destruct (m w) as [[a|e] w']; cbn in *; [|done].
  by rewrite Hf.
Qed.

Lemma keeps_for_each {A} (l : list A) (body : A → M unit) :
  (∀ x, ParametricPlot.keeps_self (body x)) →
  ParametricPlot.keeps_self (ParametricPlot.for_each l body).
Proof.
  intros Hbody. induction l as [|x l IH]; cbn [ParametricPlot.for_each].
  - apply keeps_ret.
  - apply keeps_bind; [apply Hbody|]. by intros _.
Qed.

(** The loop over the samples draws their lines, in order. *)
Lemma for_each_lines ax kwargs (ms : list (np.ndarray2 Num)) : ∀ w,
  Forall (λ m, 1 < np.ncols m) ms →
  ParametricPlot.for_each ms (λ data_matrix,
    ParametricPlot.bind (ParametricPlot.lift (np.column data_matrix 0))
      (λ xs,
    ParametricPlot.bind (ParametricPlot.lift (np.column data_matrix 1))
      (λ ys, ParametricPlot.emit (ParametricPlot.ax_plot ax xs ys kwargs)))) w
  = (Ok (),
     ParametricPlot.World (ParametricPlot.self w)
       (ParametricPlot.drawn w ++ (ParametricPlot.line ax kwargs <$> ms))).
Proof.
  induction ms as [|m ms IH]; intros w Hms.
  { cbn. rewrite app_nil_r. by destruct w. }
  apply Forall_cons in Hms as [Hm Hms].
  cbn [ParametricPlot.for_each]. unfold ParametricPlot.bind at 1.
  unfold ParametricPlot.bind at 1. unfold ParametricPlot.lift at 1.
  unfold np.column. rewrite decide_False by lia.
  unfold ParametricPlot.bind at 1. unfold ParametricPlot.lift at 1.
  rewrite decide_False by lia.
  unfold ParametricPlot.emit at 1. rewrite IH by done.
  cbn [ParametricPlot.self ParametricPlot.drawn].
  rewrite fmap_cons, <-app_assoc. done.
Qed.

Ltac keeps :=
  repeat first
    [ apply keeps_ret | apply keeps_lift | apply keeps_emit
    | apply keeps_get_self
    | apply keeps_for_each; intros ?
    | apply keeps_bind; [|intros ?]
    | match goal with
      | |- ParametricPlot.keeps_self (match ?x with _ => _ end) => destruct x
      end ].

(** The assignment of [fd_final] *)
Lemma assign_fd_final w fd :
  ParametricPlot.final_data (ParametricPlot.self w) = Ok fd →
  match ParametricPlot.fdata2 (ParametricPlot.self w) with
  | Some fdata2 =>
      ParametricPlot.bind
        (ParametricPlot.lift
           (FData.concatenate
              (ParametricPlot.fdata1 (ParametricPlot.self w)) fdata2))
        (λ fd0, ParametricPlot.set_fd_final fd0)
  | None =>
      ParametricPlot.set_fd_final
        (ParametricPlot.fdata1 (ParametricPlot.self w))
  end w
  = (Ok (),
     ParametricPlot.World
       (ParametricPlot.Make (ParametricPlot.fdata1 (ParametricPlot.self w))
          (ParametricPlot.fdata2 (ParametricPlot.self w)) (Some fd))
       (ParametricPlot.drawn w) : world).
Proof.
  unfold ParametricPlot.final_data.
  destruct (ParametricPlot.fdata2 (ParametricPlot.self w)) as [b|] eqn:Hb.
  - intros Hfd. unfold ParametricPlot.bind, ParametricPlot.lift.
    rewrite Hfd. unfold ParametricPlot.set_fd_final. by rewrite Hb.
  - intros [= <-]. unfold ParametricPlot.set_fd_final. by rewrite Hb.
Qed.

(** The state after the assignment of [fd_final]: nothing that follows in
    [plot] changes the instance again. *)
Lemma plot_fd_final_assigned w chart fig ax kwargs fig0 axes0 fd :
  ParametricPlot._get_figure_and_axes chart fig ax = Ok (fig0, axes0) →
  ParametricPlot.final_data (ParametricPlot.self w) = Ok fd →
  ParametricPlot.self (ParametricPlot.plot chart fig ax kwargs w).2 =
    ParametricPlot.Make (ParametricPlot.fdata1 (ParametricPlot.self w))
      (ParametricPlot.fdata2 (ParametricPlot.self w)) (Some fd).
Proof.
  intros Hcanvas Hfd.
  unfold ParametricPlot.plot, mbind, ParametricPlot.M_bind.
  rewrite Hcanvas.
  unfold ParametricPlot.bind at 1. unfold ParametricPlot.lift at 1.
  unfold ParametricPlot.bind at 1. unfold ParametricPlot.get_self at 1.
  unfold ParametricPlot.bind at 1.
  rewrite (assign_fd_final w fd Hfd).
  match goal with
  | |- ParametricPlot.self (?m ?w1).2 = _ =>
      assert (ParametricPlot.keeps_self m) as Hk
  end.
  { unfold ParametricPlot.get_fd_final, ParametricPlot.raise. keeps. }
  by rewrite Hk.
Qed.

Ltac plot_start Hcanvas Hfd :=
  unfold ParametricPlot.plot, mbind, ParametricPlot.M_bind;
  rewrite Hcanvas;
  unfold ParametricPlot.bind at 1; unfold ParametricPlot.lift at 1;
  unfold ParametricPlot.bind at 1; unfold ParametricPlot.get_self at 1;
  unfold ParametricPlot.bind at 1;
  rewrite (assign_fd_final _ _ Hfd);
  unfold ParametricPlot.bind at 1; unfold ParametricPlot.get_fd_final at 1;
  unfold ParametricPlot.bind at 1; unfold ParametricPlot.get_self at 1;
  cbn [ParametricPlot.self ParametricPlot.fd_final];
  unfold ParametricPlot.ret at 1.

(** A call whose data is not a curve in the plane raises the configuration
    error, after the assignment and before any drawing. *)
Lemma plot_rejects w chart fig ax kwargs fig0 axes0 fd :
  ParametricPlot._get_figure_and_axes chart fig ax = Ok (fig0, axes0) →
  ParametricPlot.final_data (ParametricPlot.self w) = Ok fd →
  ¬ (FData.dim_domain fd = 1 ∧ FData.dim_codomain fd = 2) →
  ParametricPlot.plot chart fig ax kwargs w =
    (Raise ParametricPlot.configuration_error,
     ParametricPlot.World
       (ParametricPlot.Make (ParametricPlot.fdata1 (ParametricPlot.self w))
          (ParametricPlot.fdata2 (ParametricPlot.self w)) (Some fd))
       (ParametricPlot.drawn w)).
Proof.
  intros Hcanvas Hfd Hdims. plot_start Hcanvas Hfd.
  rewrite decide_False by done. done.
Qed.

(** A call whose data is a curve in the plane draws the line of every
    sample, then the title and the labels, and returns the figure. *)
Lemma plot_accepts w chart fig ax kwargs fig0 axes0 fig1 ax1 axes1 fd :
  ParametricPlot._get_figure_and_axes chart fig ax = Ok (fig0, axes0) →
  ParametricPlot.final_data (ParametricPlot.self w) = Ok fd →
  FData.wf fd →
  FData.dim_domain fd = 1 ∧ FData.dim_codomain fd = 2 →
  ParametricPlot._set_figure_layout fig0 axes0 2 1 = Ok (fig1, ax1 :: axes1) →
  ParametricPlot.plot chart fig ax kwargs w =
    (Ok fig1,
     ParametricPlot.World
       (ParametricPlot.Make (ParametricPlot.fdata1 (ParametricPlot.self w))
          (ParametricPlot.fdata2 (ParametricPlot.self w)) (Some fd))
       (ParametricPlot.drawn w
        ++ (ParametricPlot.line ax1 kwargs
              <$> np.iter3 (FData.data_matrix fd))
        ++ ParametricPlot.decorations fig1 ax1 fd)).
Proof.
  intros Hcanvas Hfd (Hwf & Hcod & Hnames) Hdims Hlayout.
  plot_start Hcanvas Hfd.
  rewrite decide_True by done. rewrite Hlayout.
  do 2 (unfold ParametricPlot.bind at 1; unfold ParametricPlot.lift at 1).
  cbn [getitem lookup list_lookup].
  do 2 (unfold ParametricPlot.bind at 1).
  rewrite for_each_lines.
  2:{ apply Forall_fmap, Forall_forall. intros row _. unfold np.ncols.
      cbn. rewrite Hcod. lia. }
  unfold ParametricPlot.ret at 1.
  cbn [ParametricPlot.self ParametricPlot.drawn].
  destruct (FData.coordinate_names fd) as [|name0 [|name1 names]] eqn:Hn;
    [cbn in Hnames; lia..|].
  unfold ParametricPlot.decorations. rewrite Hn.
  cbn [lookup list_lookup mjoin option_join].
  unfold ParametricPlot.bind, ParametricPlot.lift, ParametricPlot.emit,
    ParametricPlot.ret, getitem.
  cbn [lookup list_lookup].
  destruct (FData.dataset_name fd), name0, name1;
    cbn [ParametricPlot.self ParametricPlot.drawn default];
    rewrite <-?app_assoc; reflexivity.
Qed.

(** The lines of the samples, point by point. *)
Lemma lines_spec (ax : Ax) (kwargs : Kwargs) (data : np.ndarray3 Num) :
  np.wf3 data → 1 < (np.shape3 data).2 →
  length (ParametricPlot.line (Fig:=Fig) ax kwargs <$> np.iter3 data)
    = np.len3 data ∧
  ∀ s, s < np.len3 data →
    ∃ xs ys,
      (ParametricPlot.line (Fig:=Fig) ax kwargs <$> np.iter3 data) !! s
        = Some (ParametricPlot.ax_plot ax xs ys kwargs) ∧
      length xs = (np.shape3 data).1.2 ∧
      length ys = (np.shape3 data).1.2 ∧
      ∀ i, xs !! i = np.lookup3 data s i 0 ∧ ys !! i = np.lookup3 data s i 1.
Proof.
  intros Hwf Hc. unfold np.iter3. rewrite !length_fmap. split; [apply Hwf|].
  intros s Hs. rewrite !list_lookup_fmap.
  destruct (lookup_lt_is_Some_2 (np.data3 data) s) as [row Hrow].
  { destruct Hwf as [-> _]. done. }
  rewrite Hrow. cbn [fmap option_fmap option_map].
  unfold ParametricPlot.line. cbn [np.data2].
  destruct (wf3_lookup_row data s row Hwf Hrow) as [Hlen Hcells].
  assert (Hsome : ∀ c, c < 2 →
    Forall (λ cell : list Num, is_Some (cell !! c)) row).
  { intros c Hc'. eapply Forall_impl; [exact Hcells|].
    intros cell Hcell. cbn in Hcell. apply lookup_lt_is_Some_2. lia. }
  destruct (omap_total_lookup (λ cell : list Num, cell !! 0) row)
    as [Hl0 Hx]; [apply Hsome; lia|].
  destruct (omap_total_lookup (λ cell : list Num, cell !! 1) row)
    as [Hl1 Hy]; [apply Hsome; lia|].
  eexists _, _. split; [done|]. split; [lia|]. split; [lia|].
  intros i. unfold np.lookup3. rewrite Hrow. cbn [mbind option_bind].
  by rewrite Hx, Hy.
Qed.

(** An error of the canvas helper or of the concatenation ends the call
    before the assignment: the instance and the canvas stay as they were. *)
Lemma plot_canvas_raises w chart fig ax kwargs e :
  ParametricPlot._get_figure_and_axes chart fig ax = Raise e →
  ParametricPlot.plot chart fig ax kwargs w = (Raise e, w).
Proof.
  intros Hcanvas. unfold ParametricPlot.plot, mbind, ParametricPlot.M_bind.
  rewrite Hcanvas. done.
Qed.

Lemma plot_concatenate_raises w chart fig ax kwargs fig0 axes0 e :
  ParametricPlot._get_figure_and_axes chart fig ax = Ok (fig0, axes0) →
  ParametricPlot.final_data (ParametricPlot.self w) = Raise e →
  ParametricPlot.plot chart fig ax kwargs w = (Raise e, w).
Proof.
  intros Hcanvas Hfd. unfold ParametricPlot.plot, mbind, ParametricPlot.M_bind.
  rewrite Hcanvas.
  unfold ParametricPlot.bind at 1. unfold ParametricPlot.lift at 1.
  unfold ParametricPlot.bind at 1. unfold ParametricPlot.get_self at 1.
  unfold ParametricPlot.bind at 1.
  unfold ParametricPlot.final_data in Hfd.
  destruct (ParametricPlot.fdata2 (ParametricPlot.self w)) as [b|]; [|done].
  unfold ParametricPlot.bind, ParametricPlot.lift. by rewrite Hfd.
Qed.

(** C6, as amended: for a call whose canvas helper returns and whose data
    is there, the first object or the concatenation of the two: when the
    data has domain dimension 1 and codomain dimension 2, and the layout
    returns an axis, the call returns the figure, having drawn one line per
    sample through the points (coordinate 0, coordinate 1) of the sample;
    otherwise it raises the configuration error and draws nothing.  For two
    objects of domain and codomain dimension 1 with the same samples, the
    same points and the same domain the concatenation returns, so that the
    call returns the figure, having drawn one line per sample, the values
    of the first object against those of the second. *)
Theorem plot_draws_curves_or_rejects w chart fig ax kwargs fig0 axes0 :
  ParametricPlot._get_figure_and_axes chart fig ax = Ok (fig0, axes0) →
  (∀ fd,
     ParametricPlot.final_data (ParametricPlot.self w) = Ok fd →
     (FData.dim_domain fd = 1 ∧ FData.dim_codomain fd = 2 →
      FData.wf fd →
      ∀ fig1 ax1 axes1,
        ParametricPlot._set_figure_layout fig0 axes0 2 1
          = Ok (fig1, ax1 :: axes1) →
        ∃ lines w',
          ParametricPlot.plot chart fig ax kwargs w = (Ok fig1, w') ∧
          ParametricPlot.drawn w' =
            ParametricPlot.drawn w ++ lines
            ++ ParametricPlot.decorations fig1 ax1 fd ∧
          length lines = FData.n_samples fd ∧
          ∀ s, s < FData.n_samples fd →
            ∃ xs ys,
              lines !! s = Some (ParametricPlot.ax_plot ax1 xs ys kwargs) ∧
              length xs = (np.shape3 (FData.data_matrix fd)).1.2 ∧
              length ys = (np.shape3 (FData.data_matrix fd)).1.2 ∧
              ∀ i, xs !! i = np.lookup3 (FData.data_matrix fd) s i 0 ∧
                   ys !! i = np.lookup3 (FData.data_matrix fd) s i 1) ∧
     (¬ (FData.dim_domain fd = 1 ∧ FData.dim_codomain fd = 2) →
      ∃ w',
        ParametricPlot.plot chart fig ax kwargs w
          = (Raise ParametricPlot.configuration_error, w') ∧
        ParametricPlot.drawn w' = ParametricPlot.drawn w)) ∧
  (∀ a b,
     ParametricPlot.fdata1 (ParametricPlot.self w) = a →
     ParametricPlot.fdata2 (ParametricPlot.self w) = Some b →
     FData.wf a → FData.wf b →
     FData.dim_domain a = 1 → FData.dim_codomain a = 1 →
     FData.dim_domain b = 1 → FData.dim_codomain b = 1 →
     (np.shape3 (FData.data_matrix a)).1
       = (np.shape3 (FData.data_matrix b)).1 →
     FData.domain a = FData.domain b →
     ∀ fig1 ax1 axes1,
       ParametricPlot._set_figure_layout fig0 axes0 2 1
         = Ok (fig1, ax1 :: axes1) →
       ∃ fd lines w',
         FData.concatenate a b = Ok fd ∧
         ParametricPlot.plot chart fig ax kwargs w = (Ok fig1, w') ∧
         ParametricPlot.drawn w' =
           ParametricPlot.drawn w ++ lines
           ++ ParametricPlot.decorations fig1 ax1 fd ∧
         length lines = FData.n_samples a ∧
         ∀ s, s < FData.n_samples a →
           ∃ xs ys,
             lines !! s = Some (ParametricPlot.ax_plot ax1 xs ys kwargs) ∧
             length xs = (np.shape3 (FData.data_matrix a)).1.2 ∧
             length ys = (np.shape3 (FData.data_matrix a)).1.2 ∧
             ∀ i, xs !! i = np.lookup3 (FData.data_matrix a) s i 0 ∧
                  ys !! i = np.lookup3 (FData.data_matrix b) s i 0).
Proof.
  intros Hcanvas. split.
  - intros fd Hfd. split.
    + intros Hdims Hwf fig1 ax1 axes1 Hlayout.
      destruct (lines_spec ax1 kwargs (FData.data_matrix fd))
        as [Hlen Hlines].
      { apply Hwf. }
      { destruct Hwf as (_ & -> & _). lia. }
      eexists _, _. split; [by eapply plot_accepts|].
      split; [done|]. split; [exact Hlen|exact Hlines].
    + intros Hdims. eexists. split; [by eapply plot_rejects|done].
  - intros a b Ha Hb Hwa Hwb Hda Hca Hdb Hcb Hsh Hdom fig1 ax1 axes1 Hlayout.
    destruct (concatenate_compatible a b Hsh) as [fd Hcat];
      [congruence|done|].
    assert (Hfd : ParametricPlot.final_data (ParametricPlot.self w) = Ok fd).
    { unfold ParametricPlot.final_data. by rewrite Ha, Hb. }
    destruct (concatenate_Ok a b fd Hwa Hwb Hcat)
      as (Hwf & Hd & Hc & Hn & Hcell).
    pose proof (concatenate_shape a b fd Hcat) as Hshape.
    destruct (lines_spec ax1 kwargs (FData.data_matrix fd))
      as [Hlen Hlines].
    { apply Hwf. }
    { destruct Hwf as (_ & -> & _). lia. }
    exists fd. eexists _, _. split; [done|].
    split; [eapply plot_accepts; (done || (split; congruence || lia))|].
    split; [done|]. split; [by rewrite Hlen|].
    intros s Hs. destruct (Hlines s) as (xs & ys & Hline & Hxs & Hys & Hxy).
    { unfold FData.n_samples in *. lia. }
    exists xs, ys. split; [done|]. rewrite <-Hshape. split; [done|].
    split; [done|]. intros i. destruct (Hxy i) as [-> ->].
    rewrite !Hcell, Hca. rewrite decide_True by lia.
    rewrite decide_False by lia. done.
Qed.

(** C10: a call that gets as far as the check has assigned [fd_final]
    before it, whatever happens afterwards; in particular a call that ends
    by raising the configuration error leaves the instance with the newly
    assigned [fd_final], not as it was. *)
Theorem plot_assigns_fd_final_before_validation
    w chart fig ax kwargs fig0 axes0 fd :
  ParametricPlot._get_figure_and_axes chart fig ax = Ok (fig0, axes0) →
  ParametricPlot.final_data (ParametricPlot.self w) = Ok fd →
  ParametricPlot.fd_final
    (ParametricPlot.self (ParametricPlot.plot chart fig ax kwargs w).2)
    = Some fd ∧
  (¬ (FData.dim_domain fd = 1 ∧ FData.dim_codomain fd = 2) →
   (ParametricPlot.plot chart fig ax kwargs w).1
     = Raise ParametricPlot.configuration_error ∧
   ParametricPlot.self (ParametricPlot.plot chart fig ax kwargs w).2
     = ParametricPlot.Make (ParametricPlot.fdata1 (ParametricPlot.self w))
         (ParametricPlot.fdata2 (ParametricPlot.self w)) (Some fd) ∧
   (ParametricPlot.fd_final (ParametricPlot.self w) ≠ Some fd →
    ParametricPlot.self (ParametricPlot.plot chart fig ax kwargs w).2
      ≠ ParametricPlot.self w)).
Proof.
  intros Hcanvas Hfd.
  pose proof (plot_fd_final_assigned w chart fig ax kwargs fig0 axes0 fd
                Hcanvas Hfd) as Hself.
  split; [by rewrite Hself|].
  intros Hdims. rewrite (plot_rejects w chart fig ax kwargs fig0 axes0 fd)
    by done.
  split; [done|]. split; [done|]. cbn. intros Hne Heq.
  apply Hne. by rewrite <-Heq.
Qed.

End ParametricPlot_facts.

(** ** Runs on the sample objects *)

(** The example of the docstring of [VectorValued] *)
Example docstring_evaluation :
  VectorValued._evaluate Samples.basis Samples.points =
  Ok (np.NDArray3 (5, 3, 2)
        [[[1; 0]; [1; 0]; [1; 0]];
         [[0; 0]; [1; 0]; [2; 0]];
         [[0; 0]; [1; 0]; [4; 0]];
         [[0; 1]; [0; 1]; [0; 1]];
         [[0; 0]; [0; 1]; [0; 2]]]%Q).
Proof. reflexivity. Qed.

Lemma evaluate_bands_witness :
  ∃ M, VectorValued._evaluate Samples.basis Samples.points = Ok M ∧
    np.wf3 M ∧
    np.shape3 M = (VectorValued.n_basis Samples.basis,
                   length Samples.points,
                   VectorValued.dim_codomain Samples.basis) ∧
    ∀ i b ev, Samples.children !! i = Some b →
      Samples.evaluations Samples.children !! i = Some ev →
      ∀ r j c, r < Basis.n_basis b → j < length Samples.points →
        c < VectorValued.dim_codomain Samples.basis →
        np.lookup3 M (VectorValued.band_start Samples.children i + r) j c =
          if decide (c = i) then np.lookup3 ev r j 0 else Some zero.
Proof.
  apply (evaluate_bands Samples.children Samples.basis Samples.points
           (Samples.evaluations Samples.children)).
  - reflexivity.
  - repeat constructor.
Defined.

Lemma derivative_commutes_with_decomposition_witness :
  ∃ coefs' M,
    VectorValued._derivative_basis_and_coefs Samples.basis Samples.coefs 1
      = Ok (Samples.derived_basis, coefs') ∧
    np.wf2 coefs' ∧
    np.shape2 coefs'
      = (np.len2 Samples.coefs, VectorValued.n_basis Samples.derived_basis) ∧
    VectorValued.coefficient_blocks Samples.derived.*1 coefs'
      = Samples.derived.*2 ∧
    VectorValued._evaluate Samples.derived_basis Samples.points = Ok M ∧
    ∀ i b' ev, Samples.derived.*1 !! i = Some b' →
      Samples.evaluations Samples.derived.*1 !! i = Some ev →
      ∀ r j c, r < Basis.n_basis b' → j < length Samples.points →
        c < VectorValued.dim_codomain Samples.derived_basis →
        np.lookup3 M (VectorValued.band_start Samples.derived.*1 i + r) j c =
          if decide (c = i) then np.lookup3 ev r j 0 else Some zero.
Proof.
  apply (derivative_commutes_with_decomposition Samples.children
           Samples.basis Samples.coefs 1 Samples.derived
           Samples.derived_basis Samples.points
           (Samples.evaluations Samples.derived.*1)).
  - reflexivity.
  - reflexivity.
  - repeat constructor.
  - reflexivity.
  - repeat constructor.
Defined.

Lemma gram_matrix_block_diagonal_witness :
  np.wf2 (VectorValued._gram_matrix Samples.basis) ∧
  np.shape2 (VectorValued._gram_matrix Samples.basis)
    = (VectorValued.n_basis Samples.basis,
       VectorValued.n_basis Samples.basis) ∧
  ∀ i j bi bj, Samples.children !! i = Some bi →
    Samples.children !! j = Some bj →
    ∀ r c, r < Basis.n_basis bi → c < Basis.n_basis bj →
      np.lookup2 (VectorValued._gram_matrix Samples.basis)
        (VectorValued.band_start Samples.children i + r)
        (VectorValued.band_start Samples.children j + c) =
      if decide (i = j) then np.lookup2 (Basis.gram_matrix bi) r c
      else Some zero.
Proof.
  apply (gram_matrix_block_diagonal Samples.children Samples.basis).
  - reflexivity.
  - repeat constructor.
Defined.



Lemma plot_draws_curves_or_rejects_witness :
  ∃ fd lines w',
    FData.concatenate Samples.fdata_a Samples.fdata_b = Ok fd ∧
    ParametricPlot.plot None None None "solid" Samples.plot_ab = (Ok 0, w') ∧
    ParametricPlot.drawn w' =
      ParametricPlot.drawn Samples.plot_ab ++ lines
      ++ ParametricPlot.decorations 0 0 fd ∧
    length lines = FData.n_samples Samples.fdata_a ∧
    ∀ s, s < FData.n_samples Samples.fdata_a →
      ∃ xs ys,
        lines !! s = Some (ParametricPlot.ax_plot 0 xs ys "solid") ∧
        length xs = 3 ∧ length ys = 3 ∧
        ∀ i, xs !! i = np.lookup3 (FData.data_matrix Samples.fdata_a) s i 0 ∧
             ys !! i = np.lookup3 (FData.data_matrix Samples.fdata_b) s i 0.
Proof.
  refine (proj2 (plot_draws_curves_or_rejects Samples.plot_ab None None None
                   "solid" 0 [] _)
            Samples.fdata_a Samples.fdata_b _ _ _ _ _ _ _ _ _ _ 0 0 [] _).
  - reflexivity.
  - reflexivity.
  - reflexivity.
  - repeat constructor.
  - repeat constructor.
  - reflexivity.
  - reflexivity.
  - reflexivity.
  - reflexivity.
  - reflexivity.
  - reflexivity.
  - reflexivity.
Defined.

(** C6, where the claim fails: two samples of domain and codomain
    dimension 1, one of two curves and one of a single curve, cannot be
    concatenated as coordinates; the call raises the error of the
    concatenation, which is not the configuration error, and neither
    returns the figure nor draws a line. *)
Lemma plot_draws_curves_or_rejects_counterexample :
  FData.dim_domain Samples.fdata_a = 1 ∧
  FData.dim_codomain Samples.fdata_a = 1 ∧
  FData.dim_domain Samples.fdata_c = 1 ∧
  FData.dim_codomain Samples.fdata_c = 1 ∧
  ParametricPlot.self Samples.plot_ac
    = ParametricPlot.__init__ Samples.fdata_a (Some Samples.fdata_c) ∧
  (∃ e, ParametricPlot.plot None None None "solid" Samples.plot_ac
          = (Raise e, Samples.plot_ac) ∧
        e ≠ ParametricPlot.configuration_error) ∧
  ¬ ∃ fig w', ParametricPlot.plot None None None "solid" Samples.plot_ac
                = (Ok fig, w').
Proof.
  do 5 (split; [reflexivity|]). split.
  - eexists. split; [reflexivity|]. discriminate.
  - intros (fig & w' & Hplot). discriminate Hplot.
Qed.

Lemma plot_assigns_fd_final_before_validation_witness :
  ParametricPlot.fd_final
    (ParametricPlot.self
       (ParametricPlot.plot None None None "solid" Samples.plot_a).2)
    = Some Samples.fdata_a ∧
  (¬ (FData.dim_domain Samples.fdata_a = 1
      ∧ FData.dim_codomain Samples.fdata_a = 2) →
   (ParametricPlot.plot None None None "solid" Samples.plot_a).1
     = Raise ParametricPlot.configuration_error ∧
   ParametricPlot.self
     (ParametricPlot.plot None None None "solid" Samples.plot_a).2
     = ParametricPlot.Make Samples.fdata_a None (Some Samples.fdata_a) ∧
   (ParametricPlot.fd_final (ParametricPlot.self Samples.plot_a)
      ≠ Some Samples.fdata_a →
    ParametricPlot.self
      (ParametricPlot.plot None None None "solid" Samples.plot_a).2
      ≠ ParametricPlot.self Samples.plot_a)).
Proof.
  apply (plot_assigns_fd_final_before_validation Samples.plot_a
           None None None "solid" 0 [] Samples.fdata_a).
  - reflexivity.
  - reflexivity.
Defined.

(** The call on the single scalar sample does end with the configuration
    error, and has assigned [fd_final] by then. *)
Example plot_scalar_sample_raises :
  ParametricPlot.plot None None None "solid" Samples.plot_a =
    (Raise ParametricPlot.configuration_error,
     ParametricPlot.World
       (ParametricPlot.Make Samples.fdata_a None (Some Samples.fdata_a)) []).
Proof. reflexivity. Qed.

(** The call on the two scalar samples draws the two curves, the title and
    the labels. *)
Example plot_two_scalar_samples :
  ParametricPlot.plot None None None "solid" Samples.plot_ab =
    (Ok 0,
     ParametricPlot.World
       (ParametricPlot.Make Samples.fdata_a (Some Samples.fdata_b)
          (Some Samples.fdata_ab))
       [ParametricPlot.ax_plot 0 [1; 2; 3]%Z [7; 8; 9]%Z "solid";
        ParametricPlot.ax_plot 0 [4; 5; 6]%Z [10; 11; 12]%Z "solid";
        ParametricPlot.fig_suptitle 0 "growth";
        ParametricPlot.ax_set_xlabel 0 "height";
        ParametricPlot.ax_set_ylabel 0 "Function 2"]).
Proof. reflexivity. Qed.

(** With no depth method at all, [fit] has nothing to fit and [transform]
    returns the empty 1-D array. *)
Example transform_without_distributions :
  DDGTransformer.transform
    (DDGTransformer.Make ([] : list Z) (Some Samples.labels) (Some []))
    Samples.curves = Ok (np.Array1 []).
Proof. reflexivity. Qed.

(** * Further properties of the code *)

(** ** The constructor and the properties of [VectorValued] *)

Section VectorValued_construction.
Context {Num : Type} `{!Scalar Num} {Point DomainRange : Type}
  `{!EqDecision DomainRange} {B : Type}
  `{!Basis.ops Num Point DomainRange B}.

Implicit Types (b : B) (bl : list B) (self : VectorValued.t DomainRange B).

(** X1: the constructor returns an object exactly for the non-empty lists
    of children that all have codomain dimension 1 and that agree pairwise
    on their domain dimension and on their domain range. *)
Theorem init_returns_iff bl :
  (∃ self, VectorValued.__init__ bl = Ok self) ↔
  bl ≠ [] ∧
  Forall (λ b, Basis.dim_codomain b = 1) bl ∧
  ∀ b1 b2, b1 ∈ bl → b2 ∈ bl →
    Basis.dim_domain b1 = Basis.dim_domain b2 ∧
    Basis.domain_range b1 = Basis.domain_range b2.
Proof.
  split.
  - intros [self Hinit].
    apply init_Ok_iff in Hinit as (b0 & rest & -> & Hsc & Hdom & _).
    split; [done|]. split; [done|]. intros b1 b2 Hb1 Hb2.
    rewrite Forall_forall in Hdom.
    destruct (Hdom b1 Hb1) as [Hd1 Hr1]. destruct (Hdom b2 Hb2) as [Hd2 Hr2].
    split; congruence.
  - intros (Hne & Hsc & Hdom). destruct bl as [|b0 rest]; [done|].
    eexists. apply init_Ok_iff. exists b0, rest.
    split; [done|]. split; [done|]. split; [|done].
    apply Forall_forall. intros b Hb. apply Hdom; [done|].
    apply list_elem_of_here.
Qed.

(** X2: neither the acceptance of a list of children nor the [n_basis] and
    the [domain_range] of the object built from it depend on the order of
    the children. *)
Theorem init_permutation bl bl' self :
  VectorValued.__init__ bl = Ok self → bl' ≡ₚ bl →
  VectorValued.__init__ bl' =
    Ok (VectorValued.Make bl' (VectorValued.domain_range self)
          (VectorValued.n_basis self)).
Proof.
  intros Hinit Hperm.
  apply init_Ok_iff in Hinit as (b0 & rest & Hbl & Hsc & Hdom & ->).
  destruct bl' as [|b0' rest'].
  { symmetry in Hperm. apply Permutation_nil_r in Hperm. congruence. }
  assert (Hb0' : VectorValued.same_domain_as b0 b0').
  { rewrite Forall_forall in Hdom. apply Hdom. rewrite <-Hperm.
    apply list_elem_of_here. }
  destruct Hb0' as [Hd Hr].
  apply init_Ok_iff. exists b0', rest'. split; [done|].
  split; [by rewrite Hperm|]. split.
  - rewrite Hperm. eapply Forall_impl; [exact Hdom|].
    intros b [Hbd Hbr]. split; congruence.
  - cbn [VectorValued.domain_range VectorValued.n_basis].
    f_equal; [done|]. apply sum_list_with_Permutation_proper.
    by rewrite Hperm.
Qed.

(** X3: the domain dimension of a constructed basis, which the property
    reads off the first child, is the domain dimension of every child. *)
Theorem dim_domain_of_children bl self b :
  VectorValued.__init__ bl = Ok self → b ∈ bl →
  VectorValued.dim_domain self = Ok (Basis.dim_domain b).
Proof.
  intros Hinit Hb.
  apply init_Ok_iff in Hinit as (b0 & rest & -> & _ & Hdom & ->).
  rewrite Forall_forall in Hdom. destruct (Hdom b Hb) as [-> _]. done.
Qed.

End VectorValued_construction.

(** ** Selecting coordinates by an integer or by a range *)

Section interval_selection.
Context {A : Type}.

Lemma omap_lookup_seq_from (l : list A) (s n : nat) :
  s + n ≤ length l →
  omap (λ i : nat, l !! (s + i)) (seq 0 n) = take n (drop s l).
Proof.
  intros Hn. rewrite <-(omap_lookup_seq (drop s l) n)
    by (rewrite length_drop; lia).
  apply list_omap_ext, Forall_Forall2_diag, Forall_forall.
  intros i _. by rewrite lookup_drop.
Qed.

(** [l[a:b]] for non-negative [a] and [b] *)
Lemma py_slice_interval (l : list A) (a b : nat) :
  py_slice l (Range (Z.of_nat a) (Z.of_nat b) 1) = take (b - a) (drop a l).
Proof.
  unfold py_slice, adjust_index, slice_length. cbn [start stop step].
  change (1 <? 0)%Z with false. cbn match.
  set (len := Z.of_nat (length l)).
  assert ((Z.of_nat a <? 0)%Z = false) as -> by (apply Z.ltb_ge; lia).
  assert ((Z.of_nat b <? 0)%Z = false) as -> by (apply Z.ltb_ge; lia).
  set (sta := if (len <=? Z.of_nat a)%Z then len else Z.of_nat a).
  set (sto := if (len <=? Z.of_nat b)%Z then len else Z.of_nat b).
  assert (Hsta : sta = Z.of_nat (a `min` length l)).
  { unfold sta, len. destruct (Z.leb_spec (Z.of_nat (length l)) (Z.of_nat a)); lia. }
  assert (Hsto : sto = Z.of_nat (b `min` length l)).
  { unfold sto, len. destruct (Z.leb_spec (Z.of_nat (length l)) (Z.of_nat b)); lia. }
  assert (Hn : Z.to_nat (if (sta <? sto)%Z then (sto - sta - 1) / 1 + 1 else 0)%Z
               = b `min` length l - a `min` length l).
  { destruct (Z.ltb_spec sta sto); [rewrite Z.div_1_r|]; lia. }
  rewrite Hn, Hsta.
  erewrite (list_omap_ext _ (λ i : nat, l !! (a `min` length l + i))).
  2:{ apply Forall_Forall2_diag, Forall_forall. intros i _. f_equal. lia. }
  rewrite omap_lookup_seq_from by lia.
  destruct (decide (a ≤ length l)) as [Ha|Ha].
  - replace (a `min` length l) with a by lia.
    destruct (decide (b ≤ length l)) as [Hb|Hb].
    + by replace (b `min` length l) with b by lia.
    + replace (b `min` length l) with (length l) by lia.
      rewrite !take_ge; [done|rewrite length_drop; lia..].
  - rewrite !(drop_ge l) by lia. by rewrite !take_nil.
Qed.

(** [l[k:k + 1]] is empty for [k = -1], whose upper bound 0 is the start
    of the sequence, and for [k] below [-len(l)], whose two bounds are both
    clipped to 0. *)
Lemma py_slice_negative_empty (l : list A) (k : Z) :
  (k = -1 ∨ k < - Z.of_nat (length l))%Z →
  py_slice l (Range k (k + 1) 1) = [].
Proof.
  intros Hk. unfold py_slice. cbn [start stop step].
  set (len := Z.of_nat (length l)).
  assert (Hlen : (0 ≤ len)%Z) by (unfold len; lia).
  assert (Hn : Z.to_nat
    (slice_length (adjust_index len k 1) (adjust_index len (k + 1) 1) 1)
    = 0); [|by rewrite Hn].
  unfold slice_length, adjust_index. change (1 <? 0)%Z with false.
  cbn match. fold len in Hk.
  repeat match goal with
    | |- context [(?x <? ?y)%Z] => destruct (Z.ltb_spec x y)
    | |- context [(?x <=? ?y)%Z] => destruct (Z.leb_spec x y)
    end; lia.
Qed.

(** The column mask of the children [a .. a + m - 1]: their columns lie
    between those of the children before and those of the children after. *)
Lemma mask_interval (size : A → nat) (l : list A) : ∀ (g : nat → bool) a m,
  (∀ i, g i = bool_decide (a ≤ i < a + m)) →
  concat (imap (λ i x, if g i then replicate (size x) true
                       else replicate (size x) false) l)
  = replicate (sum_list (size <$> take a l)) false
    ++ replicate (sum_list (size <$> take m (drop a l))) true
    ++ replicate (sum_list (size <$> drop (a + m) l)) false.
Proof.
  induction l as [|x l IH]; intros g a m Hg.
  { by rewrite !take_nil, !drop_nil, take_nil. }
  destruct a as [|a].
  - rewrite (mask_prefix size (x :: l) g m).
    + by rewrite take_0, drop_0.
    + intros i. rewrite Hg. apply bool_decide_ext. lia.
  - rewrite imap_cons. cbn [concat]. rewrite Hg.
    rewrite bool_decide_eq_false_2 by lia.
    match goal with |- _ ++ ?c = _ =>
      replace c with
        (replicate (sum_list (size <$> take a l)) false
         ++ replicate (sum_list (size <$> take m (drop a l))) true
         ++ replicate (sum_list (size <$> drop (a + m) l)) false)
    end.
    + rewrite firstn_cons, fmap_cons, sum_list_cons, replicate_add.
      rewrite <-app_assoc. done.
    + symmetry. apply (IH (g ∘ S) a m). intros i. cbn. rewrite Hg.
      apply bool_decide_ext. lia.
Qed.

Lemma mask_filter_skip (p : nat) (mask : list bool) : ∀ row : list A,
  np.mask_filter (replicate p false ++ mask) row
    = np.mask_filter mask (drop p row).
Proof.
  unfold np.mask_filter. induction p as [|p IH]; intros row; [done|].
  destruct row as [|x row]; [by destruct mask|]. cbn. apply IH.
Qed.

End interval_selection.

Lemma filter_true_skip (p : nat) (mask : list bool) :
  filter (λ b : bool, b = true) (replicate p false ++ mask)
    = filter (λ b : bool, b = true) mask.
Proof.
  induction p as [|p IH]; [done|].
  cbn [replicate app]. by rewrite filter_cons_False.
Qed.

Lemma select_cols_interval {Num : Type} (a : np.ndarray2 Num) (p m n : nat) :
  np.ncols a = p + m + n →
  np.select_cols a
    (replicate p false ++ replicate m true ++ replicate n false)
    = Ok (np.slice_cols a p (p + m)).
Proof.
  intros Hcols. unfold np.select_cols, np.slice_cols.
  rewrite decide_True by (rewrite !length_app, !length_replicate; lia).
  rewrite filter_true_skip, filter_true_prefix, Hcols.
  replace (((p + m) `min` (p + m + n)) - (p `min` (p + m + n))) with m by lia.
  replace (p `min` (p + m + n)) with p by lia. do 2 f_equal.
  apply map_ext. intros row. by rewrite mask_filter_skip, mask_filter_prefix.
Qed.

(** [a[:, 0:a.shape[1]]] is [a] *)
Lemma slice_cols_all {Num : Type} (a : np.ndarray2 Num) :
  np.wf2 a → np.slice_cols a 0 (np.ncols a) = a.
Proof.
  intros [Hlen Hrows]. unfold np.slice_cols, np.len2, np.ncols.
  destruct a as [[r c] d]. cbn in *.
  f_equal; [f_equal; lia|].
  transitivity (map id d); [|apply map_id]. apply map_ext_Forall.
  eapply Forall_impl; [exact Hrows|]. intros row Hrow. cbn in *.
  rewrite drop_0. apply take_ge. lia.
Qed.

Section VectorValued_selection.
Context {Num : Type} `{!Scalar Num} {Point DomainRange : Type}
  `{!EqDecision DomainRange} {B : Type}
  `{!Basis.ops Num Point DomainRange B} {Attrs : Type}.

Implicit Types (b : B) (bl : list B) (self : VectorValued.t DomainRange B)
  (fd : FDataBasis.t Num (VectorValued.basis_object DomainRange B) Attrs).

Lemma range_contains_interval (a b i : nat) :
  range_contains (Range (Z.of_nat a) (Z.of_nat b) 1) (Z.of_nat i)
    = bool_decide (a ≤ i < a + (b - a)).
Proof.
  unfold range_contains. cbn [start stop step].
  change (0 <? 1)%Z with true. cbn match.
  rewrite Z.mod_1_r. change (0 =? 0)%Z with true. rewrite andb_true_r.
  destruct (Z.leb_spec (Z.of_nat a) (Z.of_nat i)),
    (Z.ltb_spec (Z.of_nat i) (Z.of_nat b)); cbn [andb];
    (rewrite bool_decide_eq_true_2 by lia) ||
    (rewrite bool_decide_eq_false_2 by lia); done.
Qed.

Lemma concatenate1_imap {A C} (f : nat → A → list C) (l : list A) :
  l ≠ [] → np.concatenate1 (imap f l) = Ok (concat (imap f l)).
Proof. by destruct l. Qed.

(** The mask has one entry per basis function, whatever is selected. *)
Lemma mask_length (g : nat → bool) bl :
  length (concat (imap (λ i b,
    if g i then np.ones_bool (Basis.n_basis b)
    else np.zeros_bool (Basis.n_basis b)) bl))
  = sum_list (Basis.n_basis <$> bl).
Proof.
  revert g. induction bl as [|b bl IH]; intros g; [done|].
  rewrite imap_cons. cbn [concat]. rewrite length_app, fmap_cons, sum_list_cons.
  f_equal; [|apply (IH (g ∘ S))].
  unfold np.ones_bool, np.zeros_bool. destruct (g 0); apply length_replicate.
Qed.

Lemma band_start_add bl (a m : nat) :
  VectorValued.band_start bl (a + m)
  = VectorValued.band_start bl a
    + sum_list (Basis.n_basis <$> take m (drop a bl)).
Proof.
  unfold VectorValued.band_start.
  by rewrite <-take_take_drop, fmap_app, sum_list_with_app.
Qed.

Lemma band_start_total bl (a m : nat) :
  VectorValued.band_start bl a
  + sum_list (Basis.n_basis <$> take m (drop a bl))
  + sum_list (Basis.n_basis <$> drop (a + m) bl)
  = sum_list (Basis.n_basis <$> bl).
Proof.
  rewrite <-band_start_add. unfold VectorValued.band_start.
  rewrite <-(take_drop (a + m) bl) at 3.
  by rewrite fmap_app, sum_list_with_app.
Qed.

(** A non-empty run of consecutive children of a basis is again a valid
    list of children, with the domain range of the whole. *)
Lemma init_sublist bl self (a m : nat) :
  VectorValued.__init__ bl = Ok self → take m (drop a bl) ≠ [] →
  VectorValued.__init__ (take m (drop a bl)) =
    Ok (VectorValued.Make (take m (drop a bl))
          (VectorValued.domain_range self)
          (sum_list (Basis.n_basis <$> take m (drop a bl)))).
Proof.
  intros Hinit Hne.
  apply init_Ok_iff in Hinit as (b0 & rest & Hbl & Hsc & Hdom & ->).
  cbn [VectorValued.domain_range].
  destruct (take m (drop a bl)) as [|b1 rest1] eqn:Hsub; [done|].
  assert (Hsc1 : Forall (λ b, Basis.dim_codomain b = 1) (b1 :: rest1)).
  { rewrite <-Hsub. by apply Forall_take, Forall_drop. }
  assert (Hdom1 : Forall (VectorValued.same_domain_as b0) (b1 :: rest1)).
  { rewrite <-Hsub. by apply Forall_take, Forall_drop. }
  apply init_Ok_iff. exists b1, rest1. split; [done|]. split; [done|].
  pose proof (Forall_inv Hdom1) as [Hd1 Hr1]. split.
  - eapply Forall_impl; [exact Hdom1|]. intros b [Hd Hr]. split; congruence.
  - by rewrite Hr1.
Qed.

(** What [_coordinate_nonfull] computes for the children [a .. b - 1],
    asked for as [range(a, b)] or, with [b = a + 1], as the integer [a]. *)
Lemma coordinate_nonfull_interval bl self fd key (a b : nat) :
  VectorValued.__init__ bl = Ok self →
  np.ncols (FDataBasis.coefficients fd) = VectorValued.n_basis self →
  key = VectorValued.KRange (Range (Z.of_nat a) (Z.of_nat b) 1) ∨
    (key = VectorValued.KInt (Z.of_nat a) ∧ b = S a) →
  VectorValued._coordinate_nonfull self fd key =
    basis ← match key with
            | VectorValued.KInt _ =>
                VectorValued.Child <$> getitem (take (b - a) (drop a bl)) 0
            | VectorValued.KRange _ =>
                VectorValued.Vector <$>
                  VectorValued.__init__ (take (b - a) (drop a bl))
            end;
    Ok (FDataBasis.Make basis
          (np.slice_cols (FDataBasis.coefficients fd)
             (VectorValued.band_start bl a)
             (VectorValued.band_start bl a
              + sum_list (Basis.n_basis <$> take (b - a) (drop a bl))))
          (take (b - a) (drop a (FDataBasis.coordinate_names fd)))
          (FDataBasis.attrs fd)).
Proof.
  intros Hinit Hcols Hkey.
  apply init_Ok_iff in Hinit as (b0 & rest & Hbl & _ & _ & ->).
  cbn [VectorValued.n_basis] in Hcols.
  unfold VectorValued._coordinate_nonfull, VectorValued.basis_list.
  cbn [VectorValued._basis_list].
  assert (Hr : match key with
               | VectorValued.KInt k => Range k (k + 1) 1
               | VectorValued.KRange r => r
               end = Range (Z.of_nat a) (Z.of_nat b) 1).
  { destruct Hkey as [->|[-> ->]]; [done|]. f_equal. lia. }
  rewrite Hr, !py_slice_interval.
  unfold np.concatenate1, np.ones_bool, np.zeros_bool.
  rewrite (mask_interval Basis.n_basis bl _ a (b - a))
    by (intros i; apply range_contains_interval).
  rewrite Hbl at 1. rewrite imap_cons.
  cbn [mbind result_bind].
  rewrite select_cols_interval
    by (rewrite Hcols; symmetry; apply band_start_total).
  destruct key.
  - by destruct (getitem _ 0).
  - by destruct (VectorValued.__init__ _).
Qed.

(** X4: asked for the coordinates [a .. b - 1] as [range(a, b)] with
    [0 <= a < b] and [a] below the number of children, so that at least
    one of them is present, [_coordinate_nonfull] returns the
    [VectorValued] basis of exactly those children, with the domain range
    of the whole; the coefficient columns from the first column of child
    [a] up to the first column of child [b]; and the coordinate names
    [a .. b - 1].  The returned coefficient matrix has one column per
    function of the returned basis. *)
Theorem coordinate_nonfull_range bl self fd (a b : nat) :
  VectorValued.__init__ bl = Ok self →
  np.ncols (FDataBasis.coefficients fd) = VectorValued.n_basis self →
  a < b → a < length bl →
  let sub := VectorValued.Make (take (b - a) (drop a bl))
               (VectorValued.domain_range self)
               (VectorValued.band_start bl b - VectorValued.band_start bl a) in
  let coefs := np.slice_cols (FDataBasis.coefficients fd)
                 (VectorValued.band_start bl a)
                 (VectorValued.band_start bl b) in
  VectorValued.__init__ (take (b - a) (drop a bl)) = Ok sub ∧
  VectorValued._coordinate_nonfull self fd
    (VectorValued.KRange (Range (Z.of_nat a) (Z.of_nat b) 1)) =
    Ok (FDataBasis.Make (VectorValued.Vector sub) coefs
          (take (b - a) (drop a (FDataBasis.coordinate_names fd)))
          (FDataBasis.attrs fd)) ∧
  np.ncols coefs = VectorValued.n_basis sub.
Proof.
  intros Hinit Hcols Hab Ha sub coefs.
  assert (Hb : VectorValued.band_start bl b
               = VectorValued.band_start bl a
                 + sum_list (Basis.n_basis <$> take (b - a) (drop a bl))).
  { rewrite <-band_start_add. f_equal. lia. }
  assert (Hsub : VectorValued.__init__ (take (b - a) (drop a bl)) = Ok sub).
  { unfold sub. rewrite Hb, Nat.add_sub_swap, Nat.sub_diag by lia.
    apply init_sublist; [done|].
    intros Hnil. apply (f_equal length) in Hnil.
    rewrite length_take, length_drop in Hnil. cbn in Hnil. lia. }
  split; [done|]. split.
  - rewrite (coordinate_nonfull_interval bl self fd _ a b Hinit Hcols)
      by (by left).
    rewrite Hsub. unfold coefs. by rewrite Hb.
  - pose proof (band_start_total bl a (b - a)) as Htot.
    apply init_Ok_iff in Hinit as (b0 & rest & _ & _ & _ & ->).
    cbn [VectorValued.n_basis] in Hcols.
    unfold coefs, sub, np.slice_cols, np.ncols in *.
    cbn [np.shape2 snd VectorValued.n_basis]. lia.
Qed.


(** X6: an integer key that is not below the number of children makes
    [_coordinate_nonfull] raise [IndexError]. *)
Theorem coordinate_nonfull_int_out_of_range bl self fd (k : nat) :
  VectorValued.__init__ bl = Ok self →
  np.ncols (FDataBasis.coefficients fd) = VectorValued.n_basis self →
  length bl ≤ k →
  VectorValued._coordinate_nonfull self fd (VectorValued.KInt (Z.of_nat k))
    = Raise IndexError.
Proof.
  intros Hinit Hcols Hk.
  rewrite (coordinate_nonfull_interval bl self fd _ k (S k) Hinit Hcols)
    by (by right).
  by rewrite drop_ge, take_nil by lia.
Qed.

(** X7: a range [range(a, b)] of non-negative bounds, [0 <= a] and
    [0 <= b], that selects no child, because it is empty ([b <= a]) or
    because it starts after the last child, makes [_coordinate_nonfull]
    raise the [IndexError] of the constructor on an empty list; it does not
    return a representation without coordinates. *)
Theorem coordinate_nonfull_empty_range bl self fd (a b : nat) :
  VectorValued.__init__ bl = Ok self →
  np.ncols (FDataBasis.coefficients fd) = VectorValued.n_basis self →
  b ≤ a ∨ length bl ≤ a →
  VectorValued._coordinate_nonfull self fd
    (VectorValued.KRange (Range (Z.of_nat a) (Z.of_nat b) 1))
    = Raise IndexError.
Proof.
  intros Hinit Hcols Hab.
  rewrite (coordinate_nonfull_interval bl self fd _ a b Hinit Hcols)
    by (by left).
  assert (take (b - a) (drop a bl) = []) as ->; [|done].
  destruct Hab as [Hab|Hab].
  - by replace (b - a) with 0 by lia.
  - by rewrite drop_ge, take_nil by lia.
Qed.

(** X8: the integer key -1, which would be the last coordinate if negative
    keys were counted from the end, makes [_coordinate_nonfull] raise
    [IndexError], and so does every integer key below minus the number of
    children: the slice [basis_list[k:k + 1]] is empty for them. *)
Theorem coordinate_nonfull_negative_int bl self fd (k : Z) :
  VectorValued.__init__ bl = Ok self →
  (k = -1 ∨ k < - Z.of_nat (length bl))%Z →
  VectorValued._coordinate_nonfull self fd (VectorValued.KInt k)
    = Raise IndexError.
Proof.
  intros Hinit Hk.
  apply init_Ok_iff in Hinit as (b0 & rest & Hbl & _ & _ & ->).
  unfold VectorValued._coordinate_nonfull, VectorValued.basis_list.
  cbn [VectorValued._basis_list].
  rewrite concatenate1_imap by by rewrite Hbl.
  cbn [mbind result_bind].
  by rewrite (py_slice_negative_empty bl k Hk).
Qed.

(** X9: when the coefficient matrix does not have one column per basis
    function, [_coordinate_nonfull] raises for every key, integer or range,
    whatever it selects. *)
Theorem coordinate_nonfull_column_mismatch bl self fd key :
  VectorValued.__init__ bl = Ok self →
  np.ncols (FDataBasis.coefficients fd) ≠ VectorValued.n_basis self →
  ∃ e, VectorValued._coordinate_nonfull self fd key = Raise e.
Proof.
  intros Hinit Hcols.
  apply init_Ok_iff in Hinit as (b0 & rest & Hbl & _ & _ & ->).
  cbn [VectorValued.n_basis] in Hcols.
  unfold VectorValued._coordinate_nonfull, VectorValued.basis_list.
  cbn [VectorValued._basis_list].
  rewrite concatenate1_imap by by rewrite Hbl.
  cbn [mbind result_bind].
  assert (Hsel : ∀ g : nat → bool, np.select_cols (FDataBasis.coefficients fd)
    (concat (imap (λ i b,
       if g i then np.ones_bool (Basis.n_basis b)
       else np.zeros_bool (Basis.n_basis b)) bl)) = Raise IndexError).
  { intros g. unfold np.select_cols. rewrite mask_length.
    by rewrite decide_False by done. }
  destruct key as [k|r].
  - destruct (getitem _ 0); cbn [fmap result_fmap]; [|by eexists].
    rewrite (Hsel (λ i, range_contains _ (Z.of_nat i))). by eexists.
  - destruct (VectorValued.__init__ _); cbn [fmap result_fmap]; [|by eexists].
    rewrite (Hsel (λ i, range_contains _ (Z.of_nat i))). by eexists.
Qed.

(** X10: asked for all coordinates as [range(0, n)], a representation in a
    [VectorValued] basis of n children, with a well-formed coefficient
    matrix of one column per basis function and n coordinate names, is
    returned as it is. *)
Theorem coordinate_nonfull_full_range bl self fd :
  VectorValued.__init__ bl = Ok self →
  FDataBasis.basis fd = VectorValued.Vector self →
  np.wf2 (FDataBasis.coefficients fd) →
  np.ncols (FDataBasis.coefficients fd) = VectorValued.n_basis self →
  length (FDataBasis.coordinate_names fd) = VectorValued.dim_codomain self →
  VectorValued._coordinate_nonfull self fd
    (VectorValued.KRange (Range 0 (Z.of_nat (length bl)) 1)) = Ok fd.
Proof.
  intros Hinit Hbasis Hwf Hcols Hnames.
  change 0%Z with (Z.of_nat 0).
  rewrite (coordinate_nonfull_interval bl self fd _ 0 (length bl) Hinit Hcols)
    by (by left).
  rewrite Nat.sub_0_r, !drop_0, firstn_all, Hinit.
  pose proof Hinit as Hself.
  apply init_Ok_iff in Hself as (b0 & rest & _ & _ & _ & ->).
  cbn [VectorValued.n_basis VectorValued.dim_codomain
       VectorValued.basis_list VectorValued._basis_list] in *.
  assert (Hslice : np.slice_cols (FDataBasis.coefficients fd)
            (VectorValued.band_start bl 0)
            (VectorValued.band_start bl 0 + sum_list (Basis.n_basis <$> bl))
          = FDataBasis.coefficients fd).
  { unfold VectorValued.band_start. rewrite take_0. cbn [fmap list_fmap].
    change (sum_list []) with 0.
    by rewrite Nat.add_0_l, <-Hcols, slice_cols_all. }
  unfold VectorValued.dim_codomain, VectorValued.basis_list in Hnames.
  cbn [VectorValued._basis_list] in Hnames.
  rewrite Hslice, take_ge by lia. cbn [fmap result_fmap mbind result_bind].
  destruct fd as [bs cs ns at']. cbn in *. by rewrite Hbasis.
Qed.

End VectorValued_selection.

(** *** The statements above on the basis of the docstring *)

Lemma init_permutation_witness :
  VectorValued.__init__ [Samples.basis_y; Samples.basis_x] =
    Ok (VectorValued.Make [Samples.basis_y; Samples.basis_x]
          (VectorValued.domain_range Samples.basis)
          (VectorValued.n_basis Samples.basis)).
Proof.
  apply (init_permutation Samples.children).
  - reflexivity.
  - apply perm_swap.
Defined.

Lemma dim_domain_of_children_witness :
  VectorValued.dim_domain Samples.basis
    = Ok (Basis.dim_domain Samples.basis_y).
Proof.
  apply (dim_domain_of_children Samples.children).
  - reflexivity.
  - apply list_elem_of_further, list_elem_of_here.
Defined.

Lemma coordinate_nonfull_range_witness :
  VectorValued._coordinate_nonfull Samples.basis
    (Samples.fdatabasis Samples.basis)
    (VectorValued.KRange (Range 1 2 1)) =
  Ok (FDataBasis.Make
        (VectorValued.Vector
           (VectorValued.Make [Samples.basis_y] [(0, 5)%Z] 2))
        (np.NDArray2 (2, 2) [[4; 5]; [9; 10]]%Q) [Some "y"] "dataset").
Proof.
  refine (proj1 (proj2 (coordinate_nonfull_range Samples.children
            Samples.basis (Samples.fdatabasis Samples.basis) 1 2 _ _ _ _))).
  - reflexivity.
  - reflexivity.
  - lia.
  - simpl. lia.
Defined.


Lemma coordinate_nonfull_int_out_of_range_witness :
  VectorValued._coordinate_nonfull Samples.basis
    (Samples.fdatabasis Samples.basis) (VectorValued.KInt 2)
  = Raise IndexError.
Proof.
  refine (coordinate_nonfull_int_out_of_range Samples.children Samples.basis
           (Samples.fdatabasis Samples.basis) 2
           _ _ _).
  - reflexivity.
  - reflexivity.
  - simpl. lia.
Defined.

Lemma coordinate_nonfull_empty_range_witness :
  VectorValued._coordinate_nonfull Samples.basis
    (Samples.fdatabasis Samples.basis)
    (VectorValued.KRange (Range 2 4 1))
  = Raise IndexError.
Proof.
  refine (coordinate_nonfull_empty_range Samples.children Samples.basis
           (Samples.fdatabasis Samples.basis) 2 4
           _ _ _).
  - reflexivity.
  - reflexivity.
  - right. simpl. lia.
Defined.

Lemma coordinate_nonfull_negative_int_witness :
  VectorValued._coordinate_nonfull Samples.basis
    (Samples.fdatabasis Samples.basis) (VectorValued.KInt (-1))
    = Raise IndexError.
Proof.
  refine (coordinate_nonfull_negative_int Samples.children Samples.basis
            (Samples.fdatabasis Samples.basis) (-1) _ _).
  - reflexivity.
  - left. reflexivity.
Defined.

Lemma coordinate_nonfull_column_mismatch_witness :
  ∃ e, VectorValued._coordinate_nonfull Samples.basis
         (FDataBasis.Make (VectorValued.Vector Samples.basis)
            (np.NDArray2 (2, 4) [[1; 2; 3; 4]; [6; 7; 8; 9]]%Q)
            [Some "x"; Some "y"] "dataset")
         (VectorValued.KInt 0) = Raise e.
Proof.
  refine (coordinate_nonfull_column_mismatch Samples.children _ _ _
           _ _).
  - reflexivity.
  - vm_compute. lia.
Defined.

Lemma coordinate_nonfull_full_range_witness :
  VectorValued._coordinate_nonfull Samples.basis
    (Samples.fdatabasis Samples.basis)
    (VectorValued.KRange (Range 0 2 1))
  = Ok (Samples.fdatabasis Samples.basis).
Proof.
  refine (coordinate_nonfull_full_range Samples.children Samples.basis
           (Samples.fdatabasis Samples.basis)
           _ _ _ _ _).
  - reflexivity.
  - reflexivity.
  - split; [reflexivity|]. simpl. repeat constructor.
  - reflexivity.
  - reflexivity.
Defined.

(** ** Whole-array statements *)

Section array_extensionality.
Context {Num : Type} `{!Scalar Num}.

(** Two well-formed matrices of one shape with the same cells are equal. *)
Lemma wf2_ext (a a' : np.ndarray2 Num) :
  np.wf2 a → np.wf2 a' → np.shape2 a = np.shape2 a' →
  (∀ r c, r < np.len2 a → c < np.ncols a →
     np.lookup2 a r c = np.lookup2 a' r c) →
  a = a'.
Proof.
  destruct a as [[n m] d], a' as [[n' m'] d'].
  unfold np.wf2, np.len2, np.ncols, np.lookup2. cbn.
  intros [Hl Hr] [Hl' Hr'] [= <- <-] Hcell. f_equal.
  rewrite Forall_lookup in Hr. rewrite Forall_lookup in Hr'.
  apply list_eq_same_length with n; [done..|].
  intros r row row' Hlt Hrow Hrow'.
  apply list_eq_same_length with m; [by eapply Hr'|by eapply Hr|].
  intros c x x' Hc Hx Hx'. specialize (Hcell r c Hlt Hc).
  rewrite Hrow, Hrow' in Hcell. cbn in Hcell. congruence.
Qed.

Lemma wf3_ext (M M' : np.ndarray3 Num) :
  np.wf3 M → np.wf3 M' → np.shape3 M = np.shape3 M' →
  (∀ r j c, r < (np.shape3 M).1.1 → j < (np.shape3 M).1.2 →
     c < (np.shape3 M).2 → np.lookup3 M r j c = np.lookup3 M' r j c) →
  M = M'.
Proof.
  intros HM HM' Hsh Hcell.
  pose proof (λ r row, wf3_lookup_row M r row HM) as Hrow.
  pose proof (λ r row, wf3_lookup_row M' r row HM') as Hrow'.
  pose proof (λ r j row cell, wf3_lookup_cell M r j row cell HM) as Hc.
  pose proof (λ r j row cell, wf3_lookup_cell M' r j row cell HM') as Hc'.
  destruct HM as [Hl _], HM' as [Hl' _].
  destruct M as [[[n m] k] d], M' as [[[n' m'] k'] d'].
  unfold np.lookup3 in Hcell. cbn in *. injection Hsh as <- <- <-. f_equal.
  apply list_eq_same_length with n; [done..|].
  intros r row row' Hlt Hr Hr'.
  destruct (Hrow r row Hr) as [Hlen _].
  destruct (Hrow' r row' Hr') as [Hlen' _].
  apply list_eq_same_length with m; [done..|].
  intros j cell cell' Hj Hcl Hcl'.
  apply list_eq_same_length with k;
    [by eapply (Hc' r j row')|by eapply (Hc r j row)|].
  intros c x x' Hlt' Hx Hx'. specialize (Hcell r j c Hlt Hj Hlt').
  rewrite Hr, Hr' in Hcell. cbn in Hcell. rewrite Hcl, Hcl' in Hcell.
  cbn in Hcell. congruence.
Qed.

(** Every index below the total width lies in exactly one band. *)
Lemma band_decompose (ns : list nat) : ∀ r, r < sum_list ns →
  ∃ i n r', ns !! i = Some n ∧ r = sum_list (take i ns) + r' ∧ r' < n.
Proof.
  induction ns as [|n ns IH]; intros r Hr; [cbn in Hr; lia|].
  rewrite sum_list_cons in Hr. destruct (decide (r < n)) as [Hlt|Hge].
  - exists 0, n, r. by rewrite take_0.
  - destruct (IH (r - n)) as (i & n' & r' & Hi & Hsum & Hr'); [lia|].
    exists (S i), n', r'. rewrite firstn_cons, sum_list_cons.
    split; [done|]. split; [lia|done].
Qed.

Lemma slice_cols_lookup (a : np.ndarray2 Num) (st en r c : nat) :
  en ≤ np.ncols a → st + c < en →
  np.lookup2 (np.slice_cols a st en) r c = np.lookup2 a r (st + c).
Proof.
  intros Hen Hc. unfold np.lookup2, np.slice_cols. cbn [np.data2].
  rewrite list_lookup_fmap. destruct (np.data2 a !! r) as [row|]; [|done].
  cbn. replace (st `min` np.ncols a) with st by lia.
  replace (en `min` np.ncols a) with en by lia.
  rewrite lookup_take_lt by lia. by rewrite lookup_drop.
Qed.

Lemma slice_cols_wf (a : np.ndarray2 Num) (st en : nat) :
  np.wf2 a → np.wf2 (np.slice_cols a st en).
Proof.
  intros [Hl Hr]. unfold np.slice_cols. split; cbn.
  - by rewrite length_map.
  - apply Forall_map. eapply Forall_impl; [exact Hr|]. intros row Hrow. cbn.
    rewrite length_take, length_drop. unfold np.ncols in *. lia.
Qed.

(** [block_diag] of one matrix is that matrix. *)
Lemma block_diag_singleton (a : np.ndarray2 Num) : np.block_diag [a] = a.
Proof.
  destruct a as [[n m] d]. unfold np.block_diag, np.len2, np.ncols. cbn.
  rewrite !Nat.add_0_r, Nat.sub_0_r, Nat.sub_diag, app_nil_r. f_equal.
  transitivity (map id d); [|apply map_id]. apply map_ext. intros row.
  by rewrite app_nil_r.
Qed.

(** [hstack] of one well-formed matrix is that matrix. *)
Lemma hstack_singleton (a : np.ndarray2 Num) :
  np.wf2 a → np.hstack [a] = Ok a.
Proof.
  intros [Hl _]. destruct a as [[n m] d].
  unfold np.hstack, np.len2, np.ncols in *. cbn in *.
  rewrite Nat.add_0_r. do 2 f_equal. subst n.
  clear. induction d as [|row d IH]; [done|].
  cbn. by rewrite app_nil_r, IH.
Qed.

End array_extensionality.

(** ** Gram matrix, evaluation and differentiation as a whole *)

Section VectorValued_whole.
Context {Num : Type} `{!Scalar Num} {Point DomainRange : Type}
  `{!EqDecision DomainRange} {B : Type}
  `{!Basis.ops Num Point DomainRange B}.

Implicit Types (b : B) (bl : list B) (self : VectorValued.t DomainRange B).

(** X11: the Gram matrix of a [VectorValued] basis is symmetric when the
    Gram matrices of its children are. *)
Theorem gram_matrix_symmetric bl self :
  VectorValued.__init__ bl = Ok self →
  Forall VectorValued.has_gram_matrix bl →
  Forall (λ b, ∀ r c, np.lookup2 (Basis.gram_matrix b) r c
                      = np.lookup2 (Basis.gram_matrix b) c r) bl →
  ∀ r c, np.lookup2 (VectorValued._gram_matrix self) r c
         = np.lookup2 (VectorValued._gram_matrix self) c r.
Proof.
  intros Hinit Hgram Hsym r c.
  apply init_Ok_iff in Hinit as (b0 & rest & Hbl & _ & _ & ->).
  unfold VectorValued._gram_matrix, VectorValued.basis_list.
  cbn [VectorValued._basis_list].
  destruct (gram_matrices_shape bl Hgram) as (Hwf & Hlen & Hcols).
  destruct (block_diag_spec (Basis.gram_matrix <$> bl)) as (HG & Hsh & Hcell).
  { by rewrite Hbl. } { done. }
  rewrite Hlen, Hcols in Hsh.
  set (G := np.block_diag (Basis.gram_matrix <$> bl)) in *.
  set (N := sum_list (Basis.n_basis <$> bl)) in *.
  assert (Hout : ∀ r' c', N ≤ r' → np.lookup2 G r' c' = None).
  { intros r' c' Hr'. unfold np.lookup2.
    rewrite (lookup_ge_None_2 (np.data2 G) r'); [done|].
    destruct HG as [-> _]. by rewrite Hsh. }
  assert (Hcol : np.ncols G = N) by (unfold np.ncols; by rewrite Hsh).
  destruct (decide (r < N)) as [Hr|Hr];
    [|by rewrite Hout, lookup2_ge_cols by (done || lia)].
  destruct (decide (c < N)) as [Hc|Hc];
    [|by rewrite (Hout c), lookup2_ge_cols by (done || lia)].
  destruct (band_decompose _ r Hr) as (i & ni & r' & Hi & -> & Hr').
  destruct (band_decompose _ c Hc) as (j & nj & c' & Hj & -> & Hc').
  rewrite list_lookup_fmap in Hi. rewrite list_lookup_fmap in Hj.
  destruct (bl !! i) as [bi|] eqn:Hbi; [|done].
  destruct (bl !! j) as [bj|] eqn:Hbj; [|done].
  injection Hi as <-. injection Hj as <-.
  assert (Hshape : ∀ k bk, bl !! k = Some bk →
    np.len2 (Basis.gram_matrix bk) = Basis.n_basis bk ∧
    np.ncols (Basis.gram_matrix bk) = Basis.n_basis bk).
  { intros k bk Hk.
    destruct (proj1 (Forall_lookup _ _) Hgram k bk Hk) as [_ Hs].
    unfold np.len2, np.ncols. by rewrite Hs. }
  destruct (Hshape i bi Hbi) as [Hli Hci].
  destruct (Hshape j bj Hbj) as [Hlj Hcj].
  pose proof (Hcell i j (Basis.gram_matrix bi) (Basis.gram_matrix bj)) as Hij.
  pose proof (Hcell j i (Basis.gram_matrix bj) (Basis.gram_matrix bi)) as Hji.
  rewrite !list_lookup_fmap, Hbi, Hbj in Hij, Hji.
  specialize (Hij eq_refl eq_refl r' c').
  specialize (Hji eq_refl eq_refl c' r').
  rewrite !fmap_take, Hlen, Hcols in Hij, Hji.
  rewrite Hij, Hji by lia.
  destruct (decide (i = j)) as [->|Hne].
  - rewrite decide_True by done.
    assert (bi = bj) as -> by congruence.
    rewrite Forall_lookup in Hsym. by apply (Hsym j bj).
  - by rewrite decide_False by done.
Qed.

(** X12: the Gram matrix of a [VectorValued] basis of a single child is the
    Gram matrix of that child, whatever it is. *)
Theorem gram_matrix_single_child b self :
  VectorValued.__init__ [b] = Ok self →
  VectorValued._gram_matrix self = Basis.gram_matrix b.
Proof.
  intros Hinit.
  apply init_Ok_iff in Hinit as (b0 & rest & _ & _ & _ & ->).
  unfold VectorValued._gram_matrix, VectorValued.basis_list.
  cbn [VectorValued._basis_list fmap list_fmap].
  apply block_diag_singleton.
Qed.

(** X13: a [VectorValued] basis of a single child evaluates to the very
    array that the child evaluates to. *)
Theorem evaluate_single_child b self P ev :
  VectorValued.__init__ [b] = Ok self →
  VectorValued.evaluates_to P b ev →
  VectorValued._evaluate self P = Ok ev.
Proof.
  intros Hinit Hev.
  apply init_Ok_iff in Hinit as (b0 & rest & _ & _ & _ & ->).
  destruct (evaluate_spec [b] (Basis.domain_range b0) P [ev])
    as (M & -> & HM & Hsh & Hband).
  { constructor; [done|constructor]. }
  destruct Hev as (_ & Hwf & Hshev). f_equal.
  cbn [fmap list_fmap length] in Hsh. rewrite sum_list_cons in Hsh.
  cbn [sum_list sum_list_with] in Hsh. rewrite Nat.add_0_r in Hsh.
  apply wf3_ext; [done|done|by rewrite Hsh, Hshev|].
  rewrite Hsh. cbn [fst snd]. intros r j c Hr Hj Hc.
  specialize (Hband 0 b ev eq_refl eq_refl r j c Hr Hj Hc).
  unfold VectorValued.band_start in Hband.
  rewrite take_0 in Hband. cbn in Hband.
  replace c with 0 in * by lia. by rewrite decide_True in Hband by done.
Qed.

(** Stacking the coefficient blocks of the children gives the coefficient
    matrix back. *)
Lemma hstack_coefficient_blocks bl coefs :
  bl ≠ [] → np.wf2 coefs →
  np.ncols coefs = sum_list (Basis.n_basis <$> bl) →
  np.hstack (VectorValued.coefficient_blocks bl coefs) = Ok coefs.
Proof.
  intros Hne Hwf Hcols.
  set (blocks := VectorValued.coefficient_blocks bl coefs).
  assert (Hblock : ∀ i b, bl !! i = Some b →
    blocks !! i = Some (np.slice_cols coefs (VectorValued.band_start bl i)
                          (VectorValued.band_start bl i + Basis.n_basis b)) ∧
    VectorValued.band_start bl i + Basis.n_basis b ≤ np.ncols coefs).
  { intros i b Hb. unfold blocks, VectorValued.coefficient_blocks.
    rewrite list_lookup_imap, Hb. split; [done|].
    rewrite Hcols. unfold VectorValued.band_start.
    pose proof (f_equal (λ l, sum_list (Basis.n_basis <$> l))
                  (take_drop_middle bl i b Hb)) as Hmid.
    cbn beta in Hmid.
    rewrite fmap_app, sum_list_with_app, fmap_cons, sum_list_cons in Hmid.
    lia. }
  assert (Hwidths : np.ncols <$> blocks = Basis.n_basis <$> bl).
  { apply list_eq. intros i. rewrite !list_lookup_fmap.
    destruct (bl !! i) as [b|] eqn:Hb.
    - destruct (Hblock i b Hb) as [-> Hle]. cbn. f_equal.
      unfold np.slice_cols, np.ncols in *. cbn. lia.
    - unfold blocks, VectorValued.coefficient_blocks.
      by rewrite list_lookup_imap, Hb. }
  destruct (hstack_spec blocks (np.len2 coefs))
    as (h & -> & Hh & Hsh & Hslice).
  { unfold blocks, VectorValued.coefficient_blocks.
    by destruct bl. }
  { apply Forall_lookup. intros i a Ha.
    destruct (bl !! i) as [b|] eqn:Hb.
    - destruct (Hblock i b Hb) as [Hi _]. rewrite Hi in Ha.
      injection Ha as <-. split; [by apply slice_cols_wf|done].
    - unfold blocks, VectorValued.coefficient_blocks in Ha.
      by rewrite list_lookup_imap, Hb in Ha. }
  f_equal. rewrite Hwidths in Hsh.
  apply wf2_ext; [done|done| |].
  { rewrite Hsh. destruct coefs as [[n m] d]. unfold np.len2, np.ncols in *.
    cbn in *. by rewrite Hcols. }
  unfold np.len2 at 1, np.ncols at 1. rewrite Hsh. cbn [fst snd].
  intros r c Hr Hc.
  destruct (band_decompose _ c Hc) as (i & n & c' & Hi & -> & Hc').
  rewrite list_lookup_fmap in Hi.
  destruct (bl !! i) as [b|] eqn:Hb; [|done]. injection Hi as <-.
  destruct (Hblock i b Hb) as [Hbi Hle].
  specialize (Hslice i _ Hbi).
  rewrite fmap_take, Hwidths, <-fmap_take in Hslice.
  rewrite <-fmap_take in Hc |- *.
  fold (VectorValued.band_start bl i) in *.
  assert (Hw : np.ncols (np.slice_cols coefs (VectorValued.band_start bl i)
                 (VectorValued.band_start bl i + Basis.n_basis b))
               = Basis.n_basis b).
  { unfold np.slice_cols, np.ncols in *. cbn. lia. }
  rewrite Hw in Hslice.
  rewrite <-(slice_cols_lookup h (VectorValued.band_start bl i)
               (VectorValued.band_start bl i + Basis.n_basis b) r c').
  - rewrite Hslice. apply slice_cols_lookup; [done|lia].
  - unfold np.ncols. rewrite Hsh. cbn [snd]. by rewrite <-Hcols.
  - lia.
Qed.

(** X14: when differentiating leaves every child and its block of
    coefficients as they are, differentiating the [VectorValued]
    representation returns the same basis and the same coefficient matrix:
    cutting the coefficients per child and stacking the blocks loses and
    reorders nothing. *)
Theorem derivative_unchanged_children bl self coefs order :
  VectorValued.__init__ bl = Ok self →
  np.wf2 coefs → np.ncols coefs = VectorValued.n_basis self →
  Forall (λ bc : B * np.ndarray2 Num,
            Basis._derivative_basis_and_coefs bc.1 bc.2 order = Ok bc)
         (zip bl (VectorValued.coefficient_blocks bl coefs)) →
  VectorValued._derivative_basis_and_coefs self coefs order
    = Ok (self, coefs).
Proof.
  intros Hinit Hwf Hcols Hsame. pose proof Hinit as Hself.
  apply init_Ok_iff in Hself as (b0 & rest & Hbl & _ & _ & ->).
  cbn [VectorValued.n_basis] in Hcols.
  assert (Hne : bl ≠ []) by (by rewrite Hbl).
  unfold VectorValued._derivative_basis_and_coefs, VectorValued.basis_list.
  cbn [VectorValued._basis_list].
  rewrite (hsplit_coefficient_blocks bl coefs Hne Hcols).
  set (blocks := VectorValued.coefficient_blocks bl coefs) in *.
  assert (Hlen : length blocks = length bl).
  { unfold blocks, VectorValued.coefficient_blocks. apply length_imap. }
  assert (HmapM : mapM (λ bc : B * np.ndarray2 Num,
            Basis._derivative_basis_and_coefs bc.1 bc.2 order)
            (zip bl blocks) = Ok (zip bl blocks)).
  { apply mapM_result_Ok. by apply Forall_Forall2_diag. }
  rewrite HmapM. cbn [mbind result_bind].
  assert (Hz : zip bl blocks ≠ []).
  { intros Hz. apply (f_equal length) in Hz. rewrite length_zip, Hlen in Hz.
    rewrite Hbl in Hz. cbn in Hz. lia. }
  destruct (zip bl blocks) as [|p ps] eqn:Hzip; [done|]. rewrite <-Hzip.
  rewrite fst_zip, snd_zip by lia.
  rewrite Hinit. cbn [mbind result_bind].
  unfold blocks. by rewrite (hstack_coefficient_blocks bl coefs Hne Hwf Hcols).
Qed.

(** X15: differentiating a [VectorValued] representation of a single child
    is differentiating the child on the whole coefficient matrix: the
    result is the [VectorValued] basis of the derived child, with its
    domain range and number of functions, and the derived coefficients. *)
Theorem derivative_single_child b self coefs order b' coefs' :
  VectorValued.__init__ [b] = Ok self →
  np.wf2 coefs →
  Basis._derivative_basis_and_coefs b coefs order = Ok (b', coefs') →
  Basis.dim_codomain b' = 1 → np.wf2 coefs' →
  VectorValued._derivative_basis_and_coefs self coefs order =
    Ok (VectorValued.Make [b'] (Basis.domain_range b') (Basis.n_basis b'),
        coefs').
Proof.
  intros Hinit Hwf Hder Hsc Hwf'.
  apply init_Ok_iff in Hinit as (b0 & rest & _ & _ & _ & ->).
  unfold VectorValued._derivative_basis_and_coefs, VectorValued.basis_list.
  cbn [VectorValued._basis_list fmap list_fmap].
  unfold np.cumsum, np.hsplit. cbn [np.cumsum_from length take app tail].
  cbn [Nat.sub take app zip_with zip]. rewrite slice_cols_all by done.
  cbn [mapM fst snd]. rewrite Hder. cbn [mbind result_bind mret result_ret].
  cbn [fmap list_fmap fst snd].
  assert (VectorValued.__init__ [b'] =
    Ok (VectorValued.Make [b'] (Basis.domain_range b') (Basis.n_basis b')))
    as ->.
  { apply init_Ok_iff. exists b', []. split; [done|].
    split; [by repeat constructor|]. split; [by repeat constructor|].
    rewrite fmap_cons, sum_list_cons. cbn. by rewrite Nat.add_0_r. }
  cbn [mbind result_bind]. by rewrite hstack_singleton.
Qed.

End VectorValued_whole.

(** *** The statements above on the children of the docstring *)

Lemma gram_matrix_symmetric_witness :
  np.lookup2 (VectorValued._gram_matrix Samples.basis) 0 2
  = np.lookup2 (VectorValued._gram_matrix Samples.basis) 2 0.
Proof.
  refine (gram_matrix_symmetric Samples.children Samples.basis _ _ _ 0 2).
  - reflexivity.
  - repeat constructor.
  - constructor; [|constructor; [|constructor]].
    + intros [|[|[|r]]] [|[|[|c]]]; reflexivity.
    + intros [|[|r]] [|[|c]]; reflexivity.
Defined.

Lemma gram_matrix_single_child_witness :
  VectorValued._gram_matrix
    (VectorValued.Make [Samples.basis_x] [(0, 5)%Z] 3)
  = Basis.gram_matrix Samples.basis_x.
Proof.
  apply (gram_matrix_single_child Samples.basis_x). reflexivity.
Defined.

Lemma evaluate_single_child_witness :
  VectorValued._evaluate
    (VectorValued.Make [Samples.basis_x] [(0, 5)%Z] 3) Samples.points
  = Ok (np.NDArray3 (3, 3, 1)
          [[[1]; [1]; [1]]; [[0]; [1]; [2]]; [[0]; [1]; [4]]]%Q).
Proof.
  apply (evaluate_single_child Samples.basis_x).
  - reflexivity.
  - repeat constructor.
Defined.

Lemma derivative_unchanged_children_witness :
  VectorValued._derivative_basis_and_coefs Samples.basis Samples.coefs 0
  = Ok (Samples.basis, Samples.coefs).
Proof.
  apply (derivative_unchanged_children Samples.children).
  - reflexivity.
  - repeat constructor.
  - reflexivity.
  - repeat constructor.
Defined.

Lemma derivative_single_child_witness :
  VectorValued._derivative_basis_and_coefs
    (VectorValued.Make [Samples.basis_x] [(0, 5)%Z] 3)
    (np.NDArray2 (2, 3) [[1; 2; 3]; [6; 7; 8]]%Q) 1
  = Ok (VectorValued.Make [Monomial.Make [(0, 5)%Z] 2] [(0, 5)%Z] 2,
        np.NDArray2 (2, 2) [[2; 6]; [7; 16]]%Q).
Proof.
  refine (derivative_single_child Samples.basis_x _ _ 1
            (Monomial.Make [(0, 5)%Z] 2) _ _ _ _ _ _).
  - reflexivity.
  - repeat constructor.
  - reflexivity.
  - reflexivity.
  - repeat constructor.
Defined.

(** ** [DDGTransformer.transform] on any sample *)

Section DDGTransformer_transform.
Context {Num X Y Classes Depth Distribution : Type}
  `{!DDGTransformer.collaborators Num X Y Classes Depth Distribution}.

Implicit Types (self : DDGTransformer.t Classes Depth Distribution)
  (ds : list Distribution) (ps : list (list Num)).

(** X16: [transform] reads nothing of the instance but [distributions_]:
    whatever sample [fit] has seen, on any sample [x] and with one or more
    fitted distributions that predict one value per function of [x], it
    returns the matrix of shape (n_samples of [x], number of distributions)
    whose cell (s, j) is value [s] of the prediction of distribution [j]. *)
Theorem transform_of_distributions self x ds ps :
  DDGTransformer.distributions_ self = Some ds → ds ≠ [] →
  Forall2 (DDGTransformer.predicts x) ds ps →
  ∃ a, DDGTransformer.transform self x = Ok (np.Array2 a) ∧
    np.wf2 a ∧
    np.shape2 a = (DDGTransformer.n_samples x, length ds) ∧
    ∀ s j, s < DDGTransformer.n_samples x →
      np.lookup2 a s j = (p ← ps !! j; p !! s).
Proof.
  intros Hds Hne Hps. unfold DDGTransformer.transform.
  assert (DDGTransformer.sklearn_check_is_fitted self = Ok ()) as ->.
  { unfold DDGTransformer.sklearn_check_is_fitted. rewrite Hds.
    by destruct (DDGTransformer.classes_ self). }
  rewrite Hds. cbn [mbind result_bind].
  assert (mapM (λ d, DDGTransformer.predict d x) ds = Ok ps) as ->.
  { apply mapM_result_Ok. eapply Forall2_impl; [exact Hps|].
    by intros d p [? _]. }
  cbn [mbind result_bind].
  pose proof (Forall2_length _ _ _ Hps) as Hlen.
  assert (Hall : Forall (λ p, length p = DDGTransformer.n_samples x) ps).
  { apply Forall_forall. intros p Hp.
    apply list_elem_of_lookup in Hp as [j Hp].
    by destruct (Forall2_lookup_r _ _ _ _ _ Hps Hp) as (d & _ & _ & ?). }
  rewrite (transpose_vectors_Ok (DDGTransformer.n_samples x) ps)
    by (done || (intros ->; by destruct ds)).
  destruct (transpose_rows_spec (DDGTransformer.n_samples x) ps Hall)
    as (Hrows & Hwidth & Hcell).
  eexists. split; [done|]. split; [|split].
  - split; [done|]. cbn [np.shape2 np.data2 snd]. done.
  - cbn [np.shape2]. by rewrite Hlen.
  - intros s j Hs. unfold np.lookup2. cbn [np.data2]. by apply Hcell.
Qed.

(** X17: with an empty list of fitted distributions [transform] returns
    the empty one-dimensional array on every sample, not a matrix with one
    row per function and no column. *)
Theorem transform_no_distribution self x :
  DDGTransformer.distributions_ self = Some [] →
  DDGTransformer.transform self x = Ok (np.Array1 []).
Proof.
  intros Hds. unfold DDGTransformer.transform,
    DDGTransformer.sklearn_check_is_fitted.
  rewrite Hds. by destruct (DDGTransformer.classes_ self).
Qed.

End DDGTransformer_transform.

Lemma transform_of_distributions_witness :
  ∃ a, DDGTransformer.transform Samples.fitted_transformer [[1; 1]%Z]
         = Ok (np.Array2 a) ∧
    np.wf2 a ∧
    np.shape2 a = (1, 2) ∧
    ∀ s j, s < 1 →
      np.lookup2 a s j = (p ← [[2]; [4]]%Z !! j; p !! s).
Proof.
  refine (transform_of_distributions Samples.fitted_transformer
            [[1; 1]%Z] [1; 2]%Z [[2]; [4]]%Z _ _ _).
  - reflexivity.
  - discriminate.
  - repeat constructor.
Defined.

Lemma transform_no_distribution_witness :
  DDGTransformer.transform
    (DDGTransformer.Make ([] : list Z) (Some Samples.labels) (Some []))
    Samples.curves = Ok (np.Array1 []).
Proof.
  apply (transform_no_distribution
           (DDGTransformer.Make ([] : list Z) (Some Samples.labels) (Some []))
           Samples.curves).
  reflexivity.
Defined.

(** ** The effects of [ParametricPlot.plot] *)

Section ParametricPlot_effects.
Context {Num Domain : Type} `{!EqDecision Domain} {Fig Ax Kwargs : Type}
  `{!ParametricPlot.canvas Fig Ax}.

Local Abbreviation M := (ParametricPlot.M (Num:=Num) (Domain:=Domain)
                           (Fig:=Fig) (Ax:=Ax) (Kwargs:=Kwargs)).
Local Abbreviation world := (ParametricPlot.world Num Domain Fig Ax Kwargs).

(** A computation that leaves the two objects of the instance as they are
    and only adds to what is drawn. *)
Local Abbreviation stable m :=
  (∀ w : world,
     ParametricPlot.fdata1 (ParametricPlot.self (m w).2)
       = ParametricPlot.fdata1 (ParametricPlot.self w) ∧
     ParametricPlot.fdata2 (ParametricPlot.self (m w).2)
       = ParametricPlot.fdata2 (ParametricPlot.self w) ∧
     ParametricPlot.drawn w `prefix_of` ParametricPlot.drawn (m w).2).

Implicit Types (w : world) (fd : FData.t Num Domain).

Lemma stable_ret {A} (a : A) : stable (ParametricPlot.ret a : M A).
Proof. by intros w. Qed.

Lemma stable_lift {A} (r : result A) : stable (ParametricPlot.lift r : M A).
Proof. by intros w. Qed.

Lemma stable_get_self : stable (ParametricPlot.get_self : M _).
Proof. by intros w. Qed.

Lemma stable_set_fd_final fd :
  stable (ParametricPlot.set_fd_final fd : M unit).
Proof. by intros w. Qed.

Lemma stable_emit d : stable (ParametricPlot.emit d : M unit).
Proof. intros w. cbn. do 2 (split; [done|]). by apply prefix_app_r. Qed.

Lemma stable_bind {A C} (m : M A) (f : A → M C) :
  stable m → (∀ a, stable (f a)) → stable (ParametricPlot.bind m f).
Proof.
  intros Hm Hf w. unfold ParametricPlot.bind.
  destruct (Hm w) as (H1 & H2 & H3).
  destruct (m w) as [[a|e] w']; cbn in *; [|done].
  destruct (Hf a w') as (H1' & H2' & H3').
  split; [congruence|]. split; [congruence|]. by etrans.
Qed.

Lemma stable_for_each {A} (l : list A) (body : A → M unit) :
  (∀ x, stable (body x)) → stable (ParametricPlot.for_each l body).
Proof.
  intros Hbody. induction l as [|x l IH]; cbn [ParametricPlot.for_each].
  - apply stable_ret.
  - apply stable_bind; [apply Hbody|]. by intros _.
Qed.

(** X18: whatever the arguments, the data and the canvas, and whether it
    returns or raises, a call of [plot] leaves [fdata1] and [fdata2] of the
    instance as they are and takes back nothing that was drawn: the calls
    on the figure and the axes are only added to. *)
Theorem plot_keeps_data_and_drawing chart fig ax kwargs w :
  ParametricPlot.fdata1
    (ParametricPlot.self (ParametricPlot.plot chart fig ax kwargs w).2)
    = ParametricPlot.fdata1 (ParametricPlot.self w) ∧
  ParametricPlot.fdata2
    (ParametricPlot.self (ParametricPlot.plot chart fig ax kwargs w).2)
    = ParametricPlot.fdata2 (ParametricPlot.self w) ∧
  ParametricPlot.drawn w `prefix_of`
    ParametricPlot.drawn (ParametricPlot.plot chart fig ax kwargs w).2.
Proof.
  revert w.
  unfold ParametricPlot.plot, mbind, ParametricPlot.M_bind,
    ParametricPlot.get_fd_final, ParametricPlot.raise.
  repeat first
    [ apply stable_ret | apply stable_lift | apply stable_emit
    | apply stable_get_self | apply stable_set_fd_final
    | apply stable_for_each; intros ?
    | apply stable_bind; [|intros ?]
    | match goal with
      | |- ∀ w, _ (_ ((match ?x with _ => _ end) w).2) = _ ∧ _ =>
          destruct x
      end ].
Qed.

(** The call up to the check of the dimensions *)
Ltac plot_to_check Hcanvas Hfd :=
  unfold ParametricPlot.plot, mbind, ParametricPlot.M_bind;
  rewrite Hcanvas;
  unfold ParametricPlot.bind at 1; unfold ParametricPlot.lift at 1;
  unfold ParametricPlot.bind at 1; unfold ParametricPlot.get_self at 1;
  unfold ParametricPlot.bind at 1;
  rewrite (assign_fd_final _ _ Hfd);
  unfold ParametricPlot.bind at 1; unfold ParametricPlot.get_fd_final at 1;
  unfold ParametricPlot.bind at 1; unfold ParametricPlot.get_self at 1;
  cbn [ParametricPlot.self ParametricPlot.fd_final];
  unfold ParametricPlot.ret at 1.

(** X19: when the canvas helper raises, or when it returns and the
    concatenation of the two objects raises, the call ends with that error
    before [fd_final] is assigned: the instance, with the [fd_final] of an
    earlier call if there is one, and the drawing are left as they were. *)
Theorem plot_fails_before_assignment w chart fig ax kwargs e :
  ParametricPlot._get_figure_and_axes chart fig ax = Raise e ∨
  (∃ fig0 axes0,
     ParametricPlot._get_figure_and_axes chart fig ax = Ok (fig0, axes0) ∧
     ParametricPlot.final_data (ParametricPlot.self w) = Raise e) →
  ParametricPlot.plot chart fig ax kwargs w = (Raise e, w).
Proof.
  intros [Hcanvas|(fig0 & axes0 & Hcanvas & Hfd)].
  - by apply plot_canvas_raises.
  - by eapply plot_concatenate_raises.
Qed.

(** X20: when the data is a curve in the plane and the layout helper
    raises or returns no axes, the call raises, the error of the helper or
    the [IndexError] of [axes[0]], after it has assigned [fd_final] and
    before it draws anything. *)
Theorem plot_layout_fails w chart fig ax kwargs fig0 axes0 fd :
  ParametricPlot._get_figure_and_axes chart fig ax = Ok (fig0, axes0) →
  ParametricPlot.final_data (ParametricPlot.self w) = Ok fd →
  FData.dim_domain fd = 1 ∧ FData.dim_codomain fd = 2 →
  (∀ fig1 ax1 axes1,
     ParametricPlot._set_figure_layout fig0 axes0 2 1
       ≠ Ok (fig1, ax1 :: axes1)) →
  ∃ e,
    ParametricPlot.plot chart fig ax kwargs w =
      (Raise e,
       ParametricPlot.World
         (ParametricPlot.Make (ParametricPlot.fdata1 (ParametricPlot.self w))
            (ParametricPlot.fdata2 (ParametricPlot.self w)) (Some fd))
         (ParametricPlot.drawn w)) ∧
    (ParametricPlot._set_figure_layout fig0 axes0 2 1 = Raise e ∨
     e = IndexError).
Proof.
  intros Hcanvas Hfd Hdims Hlayout. plot_to_check Hcanvas Hfd.
  rewrite decide_True by done.
  destruct (ParametricPlot._set_figure_layout fig0 axes0 2 1)
    as [[fig1 [|ax1 axes1]]|e] eqn:Hl.
  - exists IndexError. split; [done|by right].
  - by destruct (Hlayout fig1 ax1 axes1).
  - exists e. split; [done|by left].
Qed.

(** A call does what a call on the instance with [fd_final] already
    assigned does. *)
Lemma plot_from_assignment w chart fig ax kwargs fig0 axes0 fd :
  ParametricPlot._get_figure_and_axes chart fig ax = Ok (fig0, axes0) →
  ParametricPlot.final_data (ParametricPlot.self w) = Ok fd →
  ParametricPlot.plot chart fig ax kwargs w =
    ParametricPlot.plot chart fig ax kwargs
      (ParametricPlot.World
         (ParametricPlot.Make (ParametricPlot.fdata1 (ParametricPlot.self w))
            (ParametricPlot.fdata2 (ParametricPlot.self w)) (Some fd))
         (ParametricPlot.drawn w)).
Proof.
  intros Hcanvas Hfd.
  set (w1 := ParametricPlot.World _ _).
  assert (Hfd1 : ParametricPlot.final_data (ParametricPlot.self w1) = Ok fd)
    by exact Hfd.
  etrans; [|symmetry].
  - plot_to_check Hcanvas Hfd. reflexivity.
  - plot_to_check Hcanvas Hfd1. reflexivity.
Qed.

(** X21: the [fd_final] left by an earlier call plays no part in a call:
    the result of the call and what it draws are those of the call on the
    newly constructed instance, and so is the whole state unless the call
    fails before the assignment. *)
Theorem plot_ignores_previous_fd_final
    (f1 : FData.t Num Domain) (f2 old : option (FData.t Num Domain))
    d chart fig ax kwargs :
  let w : world :=
    ParametricPlot.World (ParametricPlot.Make f1 f2 old) d in
  let w0 : world :=
    ParametricPlot.World (ParametricPlot.__init__ f1 f2) d in
  (ParametricPlot.plot chart fig ax kwargs w).1
    = (ParametricPlot.plot chart fig ax kwargs w0).1 ∧
  ParametricPlot.drawn (ParametricPlot.plot chart fig ax kwargs w).2
    = ParametricPlot.drawn (ParametricPlot.plot chart fig ax kwargs w0).2 ∧
  (ParametricPlot.plot chart fig ax kwargs w
     = ParametricPlot.plot chart fig ax kwargs w0 ∨
   ∃ e, ParametricPlot.plot chart fig ax kwargs w = (Raise e, w) ∧
        ParametricPlot.plot chart fig ax kwargs w0 = (Raise e, w0)).
Proof.
  intros w w0.
  destruct (ParametricPlot._get_figure_and_axes chart fig ax)
    as [[fig0 axes0]|e] eqn:Hcanvas.
  2:{ rewrite !(plot_canvas_raises _ chart fig ax kwargs e Hcanvas).
      split; [done|]. split; [done|]. right. by exists e. }
  destruct (ParametricPlot.final_data (ParametricPlot.self w))
    as [fd|e] eqn:Hfd.
  - assert (Hfd0 : ParametricPlot.final_data (ParametricPlot.self w0) = Ok fd)
      by exact Hfd.
    rewrite (plot_from_assignment w chart fig ax kwargs fig0 axes0 fd
               Hcanvas Hfd).
    rewrite (plot_from_assignment w0 chart fig ax kwargs fig0 axes0 fd
               Hcanvas Hfd0).
    split; [done|]. split; [done|]. by left.
  - assert (Hfd0 : ParametricPlot.final_data (ParametricPlot.self w0)
                   = Raise e) by exact Hfd.
    rewrite (plot_concatenate_raises w chart fig ax kwargs fig0 axes0 e
               Hcanvas Hfd).
    rewrite (plot_concatenate_raises w0 chart fig ax kwargs fig0 axes0 e
               Hcanvas Hfd0).
    split; [done|]. split; [done|]. right. by exists e.
Qed.

End ParametricPlot_effects.

Lemma plot_fails_before_assignment_witness :
  ParametricPlot.plot None None None "solid" Samples.plot_ac =
    (Raise (ValueError ["the objects cannot be concatenated as coordinates"]),
     Samples.plot_ac).
Proof.
  apply (plot_fails_before_assignment Samples.plot_ac None None None "solid").
  right. exists 0, []. split; reflexivity.
Defined.

Lemma plot_layout_fails_witness :
  ∃ e,
    ParametricPlot.plot None None None "solid" Samples.blank_plot_ab =
      (Raise e,
       ParametricPlot.World
         (ParametricPlot.Make Samples.fdata_a (Some Samples.fdata_b)
            (Some Samples.fdata_ab)) []) ∧
    (ParametricPlot._set_figure_layout () ([] : list unit) 2 1 = Raise e ∨
     e = IndexError).
Proof.
  refine (plot_layout_fails Samples.blank_plot_ab None None None "solid"
            () [] Samples.fdata_ab _ _ _ _).
  - reflexivity.
  - reflexivity.
  - split; reflexivity.
  - discriminate.
Defined.
